(** * dynamic-tool-search: tool selection, accumulation and the prompt loop

    A shallow embedding of the TypeScript sources
      - [types.ts]     the [ToolDefinition] interface,
      - [registry.ts]  [ToolRegistry],
      - [embedding.ts] [initializeEmbeddingModel], [generateEmbedding],
                       [generateEmbeddingsBatch],
      - [database.ts]  [initDatabase], [getPool], [findRelevantTools],
                       [registerToolInDatabase], [closeDatabase],
      - [agent.ts]     [createDynamicAgent], [handlePrompt],
      - [toolService.ts] [ToolService],
      - [config.ts]    [validateEnvironment], [createConfig],
      - [tools.ts]     the data of [demoTools],
      - the refactored entry point (the prompt loop around [handlePrompt]),
      - [main.ts]      the older single-file entry point, which carries its
                       own copies of the functions above.

    Modelling conventions.
      - A JavaScript string is the [string] of its UTF-16 code units, one
        character of the [string] per code unit, for the strings whose code
        units are all below 256 (the Latin-1 range); [trim] and
        [toLowerCase] are given in full on that range. Strings with other
        code units are outside the development.
      - JavaScript numbers and PostgreSQL [double precision] values that
        carry distances and similarities are [Float8.t]: a rational, or
        NaN, which pgvector gives as the cosine distance of a vector of
        norm zero and which PostgreSQL ranks above every number. Rounding
        is not modelled. Integers ([topK], the SERIAL column, timestamps)
        are [Z].
      - A JavaScript [Map] is an insertion-ordered association list; the
        registry, which is only ever read by key, is a [gmap].
      - Module-level variables ([embeddingModel], [pool], the registry) and
        the [pastTools] array that [main] shares with [handlePrompt] live in
        one [World] record that is threaded through a state-and-exception
        monad.
      - What the repository only calls ([FlagEmbedding], pgvector's [<=>],
        the Mastra agent, the demo tool list, the configuration values)
        is gathered in the [Env] record.
      - Console output is not modelled. *)

From Stdlib Require Import QArith.
From stdpp Require Import gmap strings pretty list fin_maps sorting.

Local Open Scope Z_scope.
Local Open Scope string_scope.
Local Open Scope list_scope.

(** ** Results of fallible code *)

Inductive Res (A : Type) : Type :=
| Ok (a : A)
| Throw (message : string).
Arguments Ok {A} a.
Arguments Throw {A} message.

(** ** JavaScript strings *)

Module Js.

(** ECMAScript WhiteSpace and LineTerminator code points below 256: TAB,
    LF, VT, FF, CR, SP and NBSP (U+00A0). *)
Definition isWhiteSpace (c : Ascii.ascii) : bool :=
  let n := Ascii.N_of_ascii c in
  (N.eqb n 9 || N.eqb n 10 || N.eqb n 11 || N.eqb n 12 || N.eqb n 13
   || N.eqb n 32 || N.eqb n 160)%bool.

Fixpoint trimStart (s : string) : string :=
  match s with
  | EmptyString => EmptyString
  | String c s' => if isWhiteSpace c then trimStart s' else s
  end.

Definition trimEnd (s : string) : string :=
  String.rev (trimStart (String.rev s)).

(** [String.prototype.trim] *)
Definition trim (s : string) : string := trimEnd (trimStart s).

(** The lower-case mapping of Unicode below code point 256: [A]-[Z]
    (65-90) and the capital letters of Latin-1 (192-222, the multiplication
    sign 215 apart) move up by 32; every other code unit stays. *)
Definition lowerChar (c : Ascii.ascii) : Ascii.ascii :=
  let n := Ascii.N_of_ascii c in
  if ((N.leb 65 n && N.leb n 90)
      || (N.leb 192 n && N.leb n 222 && negb (N.eqb n 215)))%bool
  then Ascii.ascii_of_N (n + 32) else c.

(** [String.prototype.toLowerCase] *)
Fixpoint toLowerCase (s : string) : string :=
  match s with
  | EmptyString => EmptyString
  | String c s' => String (lowerChar c) (toLowerCase s')
  end.

(** [Array.prototype.join] *)
Fixpoint join (sep : string) (l : list string) : string :=
  match l with
  | [] => ""
  | [x] => x
  | x :: l' => x ++ sep ++ join sep l'
  end.

(** Truthiness of a string: every string but the empty one. *)
Definition truthy (s : string) : bool :=
  match s with EmptyString => false | _ => true end.

(** *** [Map]: insertion-ordered, [set] on a present key keeps the
    key's position and replaces its value. *)
Section Map.
Context {K V : Type} `{EqDecision K}.

Fixpoint Map_set (k : K) (v : V) (m : list (K * V)) : list (K * V) :=
  match m with
  | [] => [(k, v)]
  | (k', v') :: m' =>
      if decide (k = k') then (k, v) :: m' else (k', v') :: Map_set k v m'
  end.

Fixpoint Map_get (k : K) (m : list (K * V)) : option V :=
  match m with
  | [] => None
  | (k', v') :: m' => if decide (k = k') then Some v' else Map_get k m'
  end.

(** [set] for each entry in turn. *)
Definition Map_setAll (m entries : list (K * V)) : list (K * V) :=
  foldl (λ m e, Map_set e.1 e.2 m) m entries.

(** [new Map(entries)] *)
Definition Map_new (entries : list (K * V)) : list (K * V) :=
  Map_setAll [] entries.

(** [map.values()] *)
Definition Map_values (m : list (K * V)) : list V := m.*2.
End Map.

(** A string made of white space only (the empty string included). *)
Fixpoint blank (s : string) : bool :=
  match s with
  | EmptyString => true
  | String c s' => (isWhiteSpace c && blank s')%bool
  end.

Definition digit (c : Ascii.ascii) : option Z :=
  let n := Ascii.N_of_ascii c in
  if (N.leb 48 n && N.leb n 57)%bool then Some (Z.of_N n - 48)%Z else None.

(** The value of the longest prefix of decimal digits, read after the
    digits that gave [acc]; [None] stands for no digit at all. *)
Fixpoint digits (s : string) (acc : option Z) : option Z :=
  match s with
  | EmptyString => acc
  | String c s' =>
      match digit c with
      | Some d => digits s' (Some (10 * default 0 acc + d)%Z)
      | None => acc
      end
  end.

(** [parseInt(s, 10)]: leading white space, a sign ([-] is 45, [+] is 43),
    then digits; whatever follows the digits is ignored. [None] is [NaN].
    Integers are exact. *)
Definition parseInt (s : string) : option Z :=
  match trimStart s with
  | EmptyString => None
  | String c s' =>
      if N.eqb (Ascii.N_of_ascii c) 45 then Z.opp <$> digits s' None
      else if N.eqb (Ascii.N_of_ascii c) 43 then digits s' None
      else digits (String c s') None
  end.

End Js.

(** ** types.ts *)

Module ToolDefinition.
(** [parameters] is a Zod schema and [execute] a function; neither is
    inspected by the code below, so both are opaque handles:
    [parameters] stands for [JSON.stringify(parameters.shape)]. *)
Record t : Type := mk {
  id : string;
  name : string;
  description : string;
  keywords : list string;
  parameters : string;
  execute : N
}.

#[global] Instance eq_dec : EqDecision t.
Proof. solve_decision. Defined.
End ToolDefinition.

(** ** registry.ts *)

Module ToolRegistry.
Record t : Type := mk { tools : gmap string ToolDefinition.t }.

Definition new : t := mk ∅.

Definition register (tool : ToolDefinition.t) (this : t) : t :=
  mk (<[ToolDefinition.id tool := tool]> (tools this)).

Definition get (toolId : string) (this : t) : option ToolDefinition.t :=
  tools this !! toolId.

(** [toolIds.map(id => this.get(id)).filter(tool => tool !== undefined)] *)
Definition getMultiple (toolIds : list string) (this : t)
  : list ToolDefinition.t :=
  omap (λ o, o) ((λ id, get id this) <$> toolIds).

(** The registry after [register] has been called on each tool of a list,
    in order. *)
Definition registerAll (tools : list ToolDefinition.t) (this : t) : t :=
  foldl (λ r tool, register tool r) this tools.
End ToolRegistry.

(** ** The merge of [handlePrompt] (agent.ts and main.ts, same text)

    [[...new Map([...pastTools, ...relevantTools].map(t => [t.id, t])).values()]] *)

Definition mergedTools (pastTools relevantTools : list ToolDefinition.t)
  : list ToolDefinition.t :=
  Js.Map_values
    (Js.Map_new ((λ t, (ToolDefinition.id t, t)) <$> (pastTools ++ relevantTools))).

(** ** Vectors and the rows of [tool_embeddings] *)

Definition vector : Type := list Q.

(** [vector(384)] in the table definition. *)
Definition DIMENSIONS : nat := 384.

Module Snapshot.
(** The object serialised into the [tool_definition] column. *)
Record t : Type := mk {
  id : string;
  name : string;
  description : string;
  keywords : list string
}.
End Snapshot.

Module Row.
(** One row of [tool_embeddings], a field per column. *)
Record t : Type := mk {
  id : Z;
  tool_id : string;
  tool_name : string;
  description : string;
  keywords : list string;
  parameters : string;
  tool_definition : Snapshot.t;
  embedding : vector;
  created_at : Z
}.
End Row.

Module Float8.
(** A [double precision] value of PostgreSQL, and the JavaScript number it
    is read into, as far as the program meets them: a number, taken as a
    rational (rounding is not modelled), or NaN. Infinities do not arise
    in what follows: pgvector keeps a cosine distance between 0 and 2. *)
Inductive t : Type :=
| Num (q : Q)
| NaN.

(** The order PostgreSQL compares and sorts by: NaN equals NaN and is
    greater than every number. *)
Definition le (x y : t) : Prop :=
  match x, y with
  | Num a, Num b => (a <= b)%Q
  | _, NaN => True
  | NaN, Num _ => False
  end.

Definition lt (x y : t) : Prop :=
  match x, y with
  | Num a, Num b => (a < b)%Q
  | Num _, NaN => True
  | NaN, _ => False
  end.

(** [1 - x] *)
Definition one_minus (x : t) : t :=
  match x with
  | Num q => Num (1 - q)
  | NaN => NaN
  end.
End Float8.

Module Selected.
(** One row of the result of the SELECT in [findRelevantTools]. *)
Record t : Type := mk {
  tool_id : string;
  tool_name : string;
  description : string;
  similarity : Float8.t
}.
End Selected.

Module Hit.
(** [{ id: string; similarity: number }] *)
Record t : Type := mk { id : string; similarity : Float8.t }.
End Hit.

Module Pool.
(** The database behind the connection pool: the table, its SERIAL
    sequence, the server clock, and a pending store failure (connection
    lost, server down) that every statement raises while it is set. *)
Record t : Type := mk {
  tool_embeddings : list Row.t;
  tool_embeddings_id_seq : Z;
  CURRENT_TIMESTAMP : Z;
  failure : option string
}.

Definition with_rows (rows : list Row.t) (db : t) : t :=
  mk rows (tool_embeddings_id_seq db) (CURRENT_TIMESTAMP db) (failure db).
Definition with_seq (n : Z) (db : t) : t :=
  mk (tool_embeddings db) n (CURRENT_TIMESTAMP db) (failure db).
End Pool.

(** ** The collaborators *)

Module FlagEmbedding.
(** The fastembed model. [embed texts] is what iterating the generator
    gives: an exception, or the batches it yields, each a list of
    vectors. *)
Record t : Type := mk { embed : list string → Res (list (list vector)) }.
End FlagEmbedding.

Module MastraAgent.
(** A Mastra agent: [generate prompt resource] is the text of the reply
    or an exception. *)
Record t : Type := mk { generate : string → string → Res string }.
End MastraAgent.

Module Config.
(** [config.search] of config.ts. *)
Record t : Type := mk {
  defaultTopK : Z;
  defaultSimilarityThreshold : Q
}.
End Config.

Module AgentOptions.
(** What [new Agent] is given besides the tools and the memory. *)
Record t : Type := mk {
  name : string;
  instructions : string;
  model : string
}.
End AgentOptions.

Record Env : Type := mkEnv {
  (** [process.env.DATABASE_URL] *)
  DATABASE_URL : option string;
  (** [FlagEmbedding.init] *)
  FlagEmbedding_init : Res FlagEmbedding.t;
  (** pgvector's [<=>]: NaN when one of the vectors has norm zero *)
  cosine_distance : vector → vector → Float8.t;
  (** [pool.connect()] *)
  connect : Res unit;
  (** the database found on the server when the pool is created *)
  server : Pool.t;
  (** [createTool], [getSharedMemory] and [new Agent] with the given
      name, instructions and model, for the given tools *)
  newAgent : AgentOptions.t → list ToolDefinition.t → Res MastraAgent.t;
  (** tools.ts *)
  demoTools : list ToolDefinition.t;
  config_search : Config.t;
  (** [config.agent] of config.ts *)
  config_agent : AgentOptions.t
}.

(** ** Program state and the monad of asynchronous functions *)

Record World : Type := mkWorld {
  (** embedding.ts: [let embeddingModel] *)
  embeddingModel : option FlagEmbedding.t;
  (** database.ts (and main.ts): [let pool] *)
  pool : option Pool.t;
  (** the [ToolRegistry] instance *)
  toolRegistry : ToolRegistry.t;
  (** the array [const pastTools] of [main] *)
  pastTools : list ToolDefinition.t
}.

Definition with_embeddingModel (m : option FlagEmbedding.t) (w : World) : World :=
  mkWorld m (pool w) (toolRegistry w) (pastTools w).
Definition with_pool (p : option Pool.t) (w : World) : World :=
  mkWorld (embeddingModel w) p (toolRegistry w) (pastTools w).
Definition with_toolRegistry (r : ToolRegistry.t) (w : World) : World :=
  mkWorld (embeddingModel w) (pool w) r (pastTools w).
Definition with_pastTools (l : list ToolDefinition.t) (w : World) : World :=
  mkWorld (embeddingModel w) (pool w) (toolRegistry w) l.

Definition M (A : Type) : Type := World → Res A * World.

#[global] Instance M_ret : MRet M := λ A a w, (Ok a, w).
#[global] Instance M_bind : MBind M := λ A B k m w,
  match m w with
  | (Ok a, w') => k a w'
  | (Throw e, w') => (Throw e, w')
  end.

Definition throw {A : Type} (message : string) : M A := λ w, (Throw message, w).
Definition gets {A : Type} (f : World → A) : M A := λ w, (Ok (f w), w).
Definition modify (f : World → World) : M unit := λ w, (Ok (), f w).
Definition lift {A : Type} (r : Res A) : M A := λ w, (r, w).

(** [for (const x of xs) { await body(x) }] *)
Fixpoint forOf {A : Type} (xs : list A) (body : A → M unit) : M unit :=
  match xs with
  | [] => mret ()
  | x :: xs' => body x ;; forOf xs' body
  end.

(** ** Decidable order on [Q] *)

#[global] Instance Qlt_decision (x y : Q) : Decision (x < y)%Q :=
  match Qlt_le_dec x y with
  | left H => left H
  | right H => right (Qle_not_lt _ _ H)
  end.

#[global] Instance Qle_decision (x y : Q) : Decision (x <= y)%Q :=
  match Qlt_le_dec y x with
  | left H => right (Qlt_not_le _ _ H)
  | right H => left H
  end.

#[global] Instance Float8_le_decision (x y : Float8.t)
  : Decision (Float8.le x y) :=
  match x, y return Decision (Float8.le x y) with
  | Float8.Num a, Float8.Num b => Qle_decision a b
  | Float8.Num _, Float8.NaN => left I
  | Float8.NaN, Float8.NaN => left I
  | Float8.NaN, Float8.Num _ => right (λ H, H)
  end.

#[global] Instance Float8_lt_decision (x y : Float8.t)
  : Decision (Float8.lt x y) :=
  match x, y return Decision (Float8.lt x y) with
  | Float8.Num a, Float8.Num b => Qlt_decision a b
  | Float8.Num _, Float8.NaN => left I
  | Float8.NaN, _ => right (λ H, H)
  end.

(** ** The SQL the program sends *)

Module Sql.
(** [WHERE] *)
Definition WHERE {A : Type} (P : A → Prop) `{∀ x, Decision (P x)}
    (rows : list A) : list A :=
  filter P rows.

(** [ORDER BY key] (ascending). The order among rows of equal key is
    not fixed by PostgreSQL; here it is the one of a merge sort. *)
Definition ORDER_BY {A : Type} (key : A → Float8.t) (rows : list A)
  : list A :=
  merge_sort (λ a b, Float8.le (key a) (key b)) rows.

(** [LIMIT n] *)
Definition LIMIT {A : Type} (n : Z) (rows : list A) : Res (list A) :=
  if (n <? 0)%Z then Throw "LIMIT must not be negative"
  else Ok (take (Z.to_nat n) rows).

(** [INSERT ... ON CONFLICT (tool_id) DO UPDATE SET ...]: the row whose
    [tool_id] is the new one is rewritten by [set]; with no such row,
    [new] is added. *)
Fixpoint INSERT_ON_CONFLICT_tool_id (new : Row.t) (set : Row.t → Row.t)
    (rows : list Row.t) : list Row.t :=
  match rows with
  | [] => [new]
  | r :: rows' =>
      if decide (Row.tool_id r = Row.tool_id new) then set r :: rows'
      else r :: INSERT_ON_CONFLICT_tool_id new set rows'
  end.

(** [$1::vector] against a stored vector: [<=>] needs equal dimensions. *)
Definition same_dimensions (q : vector) (rows : list Row.t) : bool :=
  forallb (λ r, Nat.eqb (length (Row.embedding r)) (length q)) rows.

(** The error of [<=>] at the first row whose dimension is not that of
    [q]. *)
Definition different_dimensions (q : vector) (rows : list Row.t) : string :=
  match filter (λ r, length (Row.embedding r) ≠ length q) rows with
  | r :: _ =>
      "different vector dimensions " ++ pretty (length (Row.embedding r))
      ++ " and " ++ pretty (length q)
  | [] => ""
  end.

(** The first [n] characters of [s]. *)
Fixpoint left (n : nat) (s : string) : string :=
  match n, s with
  | S n', String c s' => String c (left n' s')
  | _, _ => EmptyString
  end.

(** What [s] has beyond its first [n] characters. *)
Fixpoint excess (n : nat) (s : string) : string :=
  match n, s with
  | S n', String c s' => excess n' s'
  | _, _ => s
  end.

(** A string of spaces (U+0020) only, the empty string included. *)
Fixpoint spaces (s : string) : bool :=
  match s with
  | EmptyString => true
  | String c s' => (N.eqb (Ascii.N_of_ascii c) 32 && spaces s')%bool
  end.

(** A value can be assigned to a [VARCHAR(n)] column when it has at most
    [n] characters, or when the characters beyond the first [n] are all
    spaces; what is stored then is [left n] of it. *)
Definition fits (n : nat) (s : string) : bool := spaces (excess n s).
End Sql.

(** [pool?.query(...)]: [undefined] when [pool] is null; otherwise the
    statement runs against the database, unless the store is failing. *)
Definition pool_query {A : Type} (statement : Pool.t → Res A * Pool.t)
  : M (option A) := λ w,
  match pool w with
  | None => (Ok None, w)
  | Some db =>
      match Pool.failure db with
      | Some e => (Throw e, w)
      | None =>
          match statement db with
          | (Ok a, db') => (Ok (Some a), with_pool (Some db') w)
          | (Throw e, db') => (Throw e, with_pool (Some db') w)
          end
      end
  end.

(** ** embedding.ts *)

Module Embedding.
Definition initializeEmbeddingModel (env : Env) : M unit := λ w,
  match embeddingModel w with
  | Some _ => (Ok (), w)
  | None =>
      match FlagEmbedding_init env with
      | Ok model => (Ok (), with_embeddingModel (Some model) w)
      | Throw e => (Throw e, w)
      end
  end.

Definition generateEmbedding (env : Env) (text : string) : M vector :=
  model ← gets embeddingModel;
  (if model is None then initializeEmbeddingModel env else mret ());;
  model ← gets embeddingModel;
  match model with
  | None => throw "Embedding model not initialized"
  | Some embeddingModel =>
      result ← lift (FlagEmbedding.embed embeddingModel [text]);
      match result with
      | [] => throw "Failed to generate embedding"
      | [] :: _ => throw "Empty batch returned from embedding model"
      | (v :: _) :: _ => mret v
      end
  end.

(** [for await (const batch of generator) for (const embedding of batch)
    embeddings.push(...)] *)
Definition generateEmbeddingsBatch (env : Env) (texts : list string)
  : M (list vector) :=
  model ← gets embeddingModel;
  (if model is None then initializeEmbeddingModel env else mret ());;
  model ← gets embeddingModel;
  match model with
  | None => throw "Embedding model not initialized"
  | Some embeddingModel =>
      batches ← lift (FlagEmbedding.embed embeddingModel texts);
      mret (concat batches)
  end.

End Embedding.

Definition newline : string := String (Ascii.ascii_of_N 10) "".

(** ** database.ts *)

Module Database.
Definition initDatabase (env : Env) : M unit :=
  p ← gets pool;
  (if p is None then modify (with_pool (Some (server env))) else mret ());;
  lift (connect env);;
  _ ← pool_query (λ db, (Ok (), db));
  _ ← pool_query (λ db, (Ok (), db));
  mret ().

(** [1 - (embedding <=> $1::vector)] *)
Definition similarity (env : Env) (q : vector) (r : Row.t) : Float8.t :=
  Float8.one_minus (cosine_distance env (Row.embedding r) q).

Definition SELECT_relevant (env : Env) (q : vector) (threshold : Q)
    (topK : Z) (db : Pool.t) : Res (list Selected.t) * Pool.t :=
  let rows := Pool.tool_embeddings db in
  if negb (Sql.same_dimensions q rows) then
    (Throw (Sql.different_dimensions q rows), db)
  else
    let kept :=
      Sql.WHERE (λ r, Float8.lt (Float8.Num threshold) (similarity env q r))
        rows in
    let ordered :=
      Sql.ORDER_BY (λ r, cosine_distance env (Row.embedding r) q) kept in
    match Sql.LIMIT topK ordered with
    | Throw e => (Throw e, db)
    | Ok limited =>
        (Ok ((λ r, Selected.mk (Row.tool_id r) (Row.tool_name r)
                     (Row.description r) (similarity env q r)) <$> limited),
         db)
    end.

Definition findRelevantTools (env : Env) (userPrompt : string)
    (topK : Z) (similarityThreshold : Q) : M (list Hit.t) :=
  queryEmbedding ← Embedding.generateEmbedding env userPrompt;
  result ← pool_query (SELECT_relevant env queryEmbedding similarityThreshold topK);
  match result with
  | None => throw "TypeError: Cannot read properties of undefined (reading 'rows')"
  | Some rows =>
      mret ((λ row, Hit.mk (Selected.tool_id row) (Selected.similarity row))
              <$> rows)
  end.

Definition searchableText (tool : ToolDefinition.t) : string :=
  Js.trim (newline ++ "    " ++ ToolDefinition.name tool ++ newline
           ++ "    " ++ ToolDefinition.description tool ++ newline
           ++ "    " ++ Js.join " " (ToolDefinition.keywords tool) ++ newline
           ++ "  ").

(** The object passed to [JSON.stringify] for [tool_definition]. *)
Definition snapshot (tool : ToolDefinition.t) : Snapshot.t :=
  Snapshot.mk (ToolDefinition.id tool) (ToolDefinition.name tool)
    (ToolDefinition.description tool) (ToolDefinition.keywords tool).

(** The [tool_id] and the [tool_name] a tool is stored under: [$1] and
    [$2] as assigned to their [VARCHAR(255)] columns. *)
Definition stored_id (tool : ToolDefinition.t) : string :=
  Sql.left 255 (ToolDefinition.id tool).

Definition stored_name (tool : ToolDefinition.t) : string :=
  Sql.left 255 (ToolDefinition.name tool).

(** The column types of the table definition accept the values:
    [VARCHAR(255)] for [tool_id] and [tool_name], [vector(384)] for
    [embedding]. *)
Definition accepted (tool : ToolDefinition.t) (embedding : vector) : bool :=
  (Sql.fits 255 (ToolDefinition.id tool)
   && Sql.fits 255 (ToolDefinition.name tool)
   && Nat.eqb (length embedding) DIMENSIONS)%bool.

(** [VALUES ($1, ..., $7)], with the defaults of [id] and [created_at]. *)
Definition VALUES (tool : ToolDefinition.t) (embedding : vector)
    (db : Pool.t) : Row.t :=
  Row.mk (Pool.tool_embeddings_id_seq db) (stored_id tool)
    (stored_name tool) (ToolDefinition.description tool)
    (ToolDefinition.keywords tool) (ToolDefinition.parameters tool)
    (snapshot tool) embedding (Pool.CURRENT_TIMESTAMP db).

(** [DO UPDATE SET tool_name = $2, ..., embedding = $7] *)
Definition DO_UPDATE_SET (tool : ToolDefinition.t) (embedding : vector)
    (r : Row.t) : Row.t :=
  Row.mk (Row.id r) (Row.tool_id r)
    (stored_name tool) (ToolDefinition.description tool)
    (ToolDefinition.keywords tool) (ToolDefinition.parameters tool)
    (snapshot tool) embedding (Row.created_at r).

Definition UPSERT_tool (tool : ToolDefinition.t) (embedding : vector)
    (db : Pool.t) : Res unit * Pool.t :=
  let new := VALUES tool embedding db in
  if accepted tool embedding then
    (Ok (),
     Pool.with_seq (Pool.tool_embeddings_id_seq db + 1)
       (Pool.with_rows
          (Sql.INSERT_ON_CONFLICT_tool_id new (DO_UPDATE_SET tool embedding)
             (Pool.tool_embeddings db))
          db))
  else
    (Throw (if (Sql.fits 255 (ToolDefinition.id tool)
                && Sql.fits 255 (ToolDefinition.name tool))%bool
            then "expected 384 dimensions, not " ++ pretty (length embedding)
            else "value too long for type character varying(255)"),
     db).

Definition registerToolInDatabase (env : Env) (tool : ToolDefinition.t)
  : M unit :=
  embedding ← Embedding.generateEmbedding env (searchableText tool);
  _ ← pool_query (UPSERT_tool tool embedding);
  mret ().

Definition getPool : M Pool.t :=
  p ← gets pool;
  match p with
  | None => throw "Database not initialized. Call initDatabase() first."
  | Some db => mret db
  end.

(** [pool.end()] is taken to succeed. *)
Definition closeDatabase : M unit :=
  p ← gets pool;
  if p is Some _ then modify (with_pool None) else mret ().
End Database.

(** ** agent.ts *)

Module Agent.
Definition createDynamicAgent (env : Env) (tools : list ToolDefinition.t)
  : M MastraAgent.t :=
  lift (newAgent env (config_agent env) tools).

(** The [pastTools] argument is the array held in the [World]; the
    [toolRegistry] argument is given by its [getMultiple] method.
    The [catch] block logs and rethrows. *)
Definition handlePrompt (env : Env) (userID prompt : string)
    (findRelevantTools : string → Z → Q → M (list Hit.t))
    (getMultiple : list string → M (list ToolDefinition.t)) : M unit :=
  tools ← findRelevantTools prompt
             (Config.defaultTopK (config_search env))
             (Config.defaultSimilarityThreshold (config_search env));
  relevantTools ← getMultiple (Hit.id <$> tools);
  past ← gets pastTools;
  let merged := mergedTools past relevantTools in
  modify (with_pastTools merged);;
  past ← gets pastTools;
  agent ← createDynamicAgent env past;
  _ ← lift (MastraAgent.generate agent prompt userID);
  mret ().
End Agent.

(** ** toolService.ts *)

Module ToolService.
Definition registerTool (env : Env) (tool : ToolDefinition.t) : M unit :=
  modify (λ w, with_toolRegistry (ToolRegistry.register tool (toolRegistry w)) w);;
  Database.registerToolInDatabase env tool.

Definition setupAllTools (env : Env) : M unit :=
  forOf (demoTools env) (registerTool env).

Definition getMultipleTools (toolIds : list string)
  : M (list ToolDefinition.t) :=
  gets (λ w, ToolRegistry.getMultiple toolIds (toolRegistry w)).

Definition getTool (toolId : string) : M (option ToolDefinition.t) :=
  gets (λ w, ToolRegistry.get toolId (toolRegistry w)).
End ToolService.

(** ** How a run of the program ends *)

Inductive Ending : Type :=
| Exit (code : Z)               (* [process.exit(code)] *)
| Uncaught (message : string)   (* an exception or rejection nobody handles *)
| AwaitingInput.                (* the input has no further line *)

Inductive LoopEnd : Type := Break | Pending.

(** [turns] lists the lines handed to [handlePrompt], in order. *)
Record Run : Type := mkRun {
  ending : Ending;
  turns : list string;
  final : World
}.

Definition initialWorld : World := mkWorld None None ToolRegistry.new [].

Definition missing (variable : option string) : bool :=
  match variable with
  | None => true
  | Some value => negb (Js.truthy value)
  end.

(** ** config.ts *)

Module ConfigTs.
(** [AppConfig], its nested objects flattened. A number read by
    [parseInt] or [parseFloat] is [None] when it is [NaN]. *)
Record AppConfig : Type := mkAppConfig {
  database_url : string;
  database_maxConnections : option Z;
  database_idleTimeoutMs : option Z;
  database_connectionTimeoutMs : option Z;
  embedding_model : string;
  embedding_dimensions : option Z;
  embedding_maxLength : option Z;
  agent_model : string;
  agent_name : string;
  agent_instructions : string;
  search_defaultTopK : option Z;
  search_defaultSimilarityThreshold : option Q
}.

(** [process.env.X || fallback] *)
Definition or (value : option string) (fallback : string) : string :=
  match value with
  | Some v => if Js.truthy v then v else fallback
  | None => fallback
  end.

Definition validateEnvironment (process_env : gmap string string) : Res unit :=
  let requiredVars := ["DATABASE_URL"] in
  let missing :=
    filter (λ varName, missing (process_env !! varName) = true) requiredVars in
  if decide (0 < length missing)%nat then
    Throw ("Missing required environment variables: " ++ Js.join ", " missing
           ++ ". "
           ++ "Please check your .env file or environment configuration.")
  else Ok ().

Definition defaultInstructions : string :=
  "You are a helpful assistant with access to specific tools." ++ newline
  ++ "        Use the best tools depending on prompt." ++ newline
  ++ "        You have the ability to remember chat history, past conversations and internal states." ++ newline
  ++ "        Make sure you are able to remember and differentiate between what you said and what the user said, do not confuse the two.".

(** [parseFloat] is the JavaScript function, given from outside. *)
Definition createConfig (parseFloat : string → option Q)
    (process_env : gmap string string) : Res AppConfig :=
  match validateEnvironment process_env with
  | Throw e => Throw e
  | Ok _ =>
      Ok (mkAppConfig
            (default "" (process_env !! "DATABASE_URL"))
            (Js.parseInt (or (process_env !! "DB_MAX_CONNECTIONS") "20"))
            (Js.parseInt (or (process_env !! "DB_IDLE_TIMEOUT_MS") "30000"))
            (Js.parseInt (or (process_env !! "DB_CONNECTION_TIMEOUT_MS") "2000"))
            (or (process_env !! "EMBEDDING_MODEL") "BGESmallENV15")
            (Js.parseInt (or (process_env !! "EMBEDDING_DIMENSIONS") "384"))
            (Js.parseInt (or (process_env !! "EMBEDDING_MAX_LENGTH") "512"))
            (or (process_env !! "AGENT_MODEL") "google/gemini-2.0-flash")
            (or (process_env !! "AGENT_NAME") "Dynamic Agent")
            (or (process_env !! "AGENT_INSTRUCTIONS") defaultInstructions)
            (Js.parseInt (or (process_env !! "SEARCH_TOP_K") "3"))
            (parseFloat (or (process_env !! "SEARCH_SIMILARITY_THRESHOLD") "0.6")))
  end.
End ConfigTs.

(** ** tools.ts *)

Module Tools.
(** The [id], [name], [description] and [keywords] of each entry of
    [demoTools], in order; the Zod schemas and the [execute] functions are
    left out. *)
Definition demoTools : list Snapshot.t := [
  Snapshot.mk "get_weather" "Get Weather"
    "Retrieves current weather information for a given location including temperature, conditions, and forecast"
    ["weather"; "temperature"; "forecast"; "climate"; "rain"; "sunny"; "cloudy"; "conditions"];
  Snapshot.mk "get_air_quality" "Get Air Quality"
    "Retrieves air quality index (AQI) and pollution levels for a specified location"
    ["air quality"; "pollution"; "aqi"; "environment"; "smog"; "health"; "outdoor"];
  Snapshot.mk "send_email" "Send Email"
    "Sends an email to specified recipients with subject and body content"
    ["email"; "send"; "mail"; "message"; "communicate"; "notify"; "inbox"; "correspondence"];
  Snapshot.mk "send_sms" "Send SMS"
    "Sends a text message (SMS) to a phone number"
    ["sms"; "text"; "message"; "phone"; "mobile"; "cell"; "notify"; "alert"];
  Snapshot.mk "send_slack_message" "Send Slack Message"
    "Sends a message to a Slack channel or user"
    ["slack"; "message"; "chat"; "team"; "collaborate"; "workspace"; "channel"; "dm"];
  Snapshot.mk "create_calendar_event" "Create Calendar Event"
    "Creates a new calendar event with title, time, and attendees"
    ["calendar"; "event"; "meeting"; "schedule"; "appointment"; "booking"; "date"; "time"];
  Snapshot.mk "get_calendar_availability" "Get Calendar Availability"
    "Checks calendar availability for a given time range to find free slots"
    ["calendar"; "availability"; "free"; "busy"; "schedule"; "time slots"; "booking"];
  Snapshot.mk "create_task" "Create Task"
    "Creates a new task or todo item with title, description, and due date"
    ["task"; "todo"; "create"; "item"; "work"; "assignment"; "checklist"; "project"];
  Snapshot.mk "update_task_status" "Update Task Status"
    "Updates the status of an existing task (e.g., in progress, completed, blocked)"
    ["task"; "update"; "status"; "complete"; "done"; "progress"; "todo"; "finish"];
  Snapshot.mk "list_tasks" "List Tasks"
    "Retrieves a list of tasks with optional filtering by status, assignee, or date"
    ["task"; "list"; "todo"; "show"; "view"; "get"; "fetch"; "retrieve"; "items"];
  Snapshot.mk "query_database" "Query Database"
    "Executes a SQL query against the database and returns results"
    ["database"; "query"; "sql"; "data"; "fetch"; "retrieve"; "search"; "select"];
  Snapshot.mk "generate_report" "Generate Report"
    "Generates an analytics report with charts and statistics for specified metrics"
    ["report"; "analytics"; "statistics"; "chart"; "graph"; "data"; "metrics"; "insights"];
  Snapshot.mk "upload_file" "Upload File"
    "Uploads a file to cloud storage with optional metadata and tags"
    ["file"; "upload"; "storage"; "document"; "save"; "cloud"; "attach"];
  Snapshot.mk "search_files" "Search Files"
    "Searches for files by name, content, or metadata tags"
    ["file"; "search"; "find"; "document"; "locate"; "query"; "lookup"];
  Snapshot.mk "process_payment" "Process Payment"
    "Processes a payment transaction using credit card or other payment methods"
    ["payment"; "charge"; "transaction"; "pay"; "checkout"; "purchase"; "billing"; "invoice"];
  Snapshot.mk "get_order_status" "Get Order Status"
    "Retrieves the current status and tracking information for an order"
    ["order"; "status"; "tracking"; "shipment"; "delivery"; "purchase"; "fulfillment"];
  Snapshot.mk "post_to_twitter" "Post to Twitter"
    "Posts a tweet to Twitter/X with optional images and hashtags"
    ["twitter"; "tweet"; "post"; "social media"; "x"; "share"; "publish"];
  Snapshot.mk "get_social_analytics" "Get Social Analytics"
    "Retrieves social media analytics including engagement, reach, and follower growth"
    ["social media"; "analytics"; "metrics"; "engagement"; "followers"; "likes"; "shares"; "insights"];
  Snapshot.mk "translate_text" "Translate Text"
    "Translates text from one language to another"
    ["translate"; "translation"; "language"; "convert"; "localize"; "multilingual"];
  Snapshot.mk "fetch_webpage" "Fetch Webpage"
    "Fetches and extracts content from a webpage URL"
    ["web"; "scrape"; "fetch"; "url"; "webpage"; "html"; "content"; "extract"];
  Snapshot.mk "call_external_api" "Call External API"
    "Makes an HTTP request to an external API endpoint"
    ["api"; "http"; "request"; "rest"; "endpoint"; "call"; "fetch"; "external"];
  Snapshot.mk "generate_image" "Generate Image"
    "Generates an AI image based on a text prompt using DALL-E or similar"
    ["image"; "generate"; "ai"; "create"; "dall-e"; "art"; "picture"; "visual"];
  Snapshot.mk "analyze_image" "Analyze Image"
    "Analyzes an image to detect objects, faces, text, or other features"
    ["image"; "analyze"; "vision"; "detect"; "recognize"; "ocr"; "object detection"];
  Snapshot.mk "send_push_notification" "Send Push Notification"
    "Sends a push notification to mobile devices or web browsers"
    ["push"; "notification"; "alert"; "mobile"; "app"; "notify"; "message"];
  Snapshot.mk "run_code" "Run Code"
    "Executes code in a sandboxed environment and returns the output"
    ["code"; "execute"; "run"; "programming"; "script"; "compile"; "sandbox"];
  Snapshot.mk "generate_code" "Generate Code"
    "Generates code snippets based on natural language description"
    ["code"; "generate"; "programming"; "ai"; "copilot"; "create"; "write"; "function"]
].
End Tools.

(** ** The entry point built on the modules above *)

Module EntryPoint.
Definition userID : string := "user1".

(** [while (true)] over the lines typed at the prompt. *)
Fixpoint promptLoop (env : Env) (lines : list string) (w : World)
  : Res LoopEnd * list string * World :=
  match lines with
  | [] => (Ok Pending, [], w)
  | text :: lines' =>
      if String.eqb (Js.toLowerCase (Js.trim text)) "exit" then
        (Ok Break, [], w)
      else if Js.truthy (Js.trim text) then
        match Agent.handlePrompt env userID text
                (Database.findRelevantTools env)
                (λ ids, gets (λ w, ToolRegistry.getMultiple ids (toolRegistry w)))
                w with
        | (Ok _, w') =>
            let '(r, ts, w'') := promptLoop env lines' w' in
            (r, text :: ts, w'')
        | (Throw e, w') => (Throw e, [text], w')
        end
      else promptLoop env lines' w
  end.

Definition startup (env : Env) : M unit :=
  Embedding.initializeEmbeddingModel env;;
  Database.initDatabase env;;
  ToolService.setupAllTools env;;
  modify (with_pastTools []).

(** config.ts refuses to load without [DATABASE_URL]. Inside [main],
    the [catch] block ends the process with status 1; [finally] ends it
    with status 0 after [break]. *)
Definition main (env : Env) (lines : list string) : Run :=
  if missing (DATABASE_URL env) then
    mkRun (Uncaught ("Missing required environment variables: DATABASE_URL. "
                     ++ "Please check your .env file or environment configuration."))
      [] initialWorld
  else
    match startup env initialWorld with
    | (Throw e, w) => mkRun (Exit 1) [] w
    | (Ok _, w) =>
        match promptLoop env lines w with
        | (Throw e, ts, w') => mkRun (Exit 1) ts w'
        | (Ok Break, ts, w') => mkRun (Exit 0) ts w'
        | (Ok Pending, ts, w') => mkRun AwaitingInput ts w'
        end
    end.
End EntryPoint.

(** ** main.ts, the single-file entry point with its own copies *)

Module Main.
Definition initDatabase (env : Env) : M unit :=
  p ← gets pool;
  (if p is None then
     if missing (DATABASE_URL env) then
       throw ("DATABASE_URL environment variable is not set. "
              ++ "Please set it to your PostgreSQL connection string.")
     else modify (with_pool (Some (server env)))
   else mret ());;
  lift (connect env);;
  _ ← pool_query (λ db, (Ok (), db));
  _ ← pool_query (λ db, (Ok (), db));
  mret ().

Definition similarity (env : Env) (q : vector) (r : Row.t) : Float8.t :=
  Float8.one_minus (cosine_distance env (Row.embedding r) q).

Definition SELECT_relevant (env : Env) (q : vector) (threshold : Q)
    (topK : Z) (db : Pool.t) : Res (list Selected.t) * Pool.t :=
  let rows := Pool.tool_embeddings db in
  if negb (Sql.same_dimensions q rows) then
    (Throw (Sql.different_dimensions q rows), db)
  else
    let kept :=
      Sql.WHERE (λ r, Float8.lt (Float8.Num threshold) (similarity env q r))
        rows in
    let ordered :=
      Sql.ORDER_BY (λ r, cosine_distance env (Row.embedding r) q) kept in
    match Sql.LIMIT topK ordered with
    | Throw e => (Throw e, db)
    | Ok limited =>
        (Ok ((λ r, Selected.mk (Row.tool_id r) (Row.tool_name r)
                     (Row.description r) (similarity env q r)) <$> limited),
         db)
    end.

Definition findRelevantTools (env : Env) (userPrompt : string)
    (topK : Z) (similarityThreshold : Q) : M (list Hit.t) :=
  queryEmbedding ← Embedding.generateEmbedding env userPrompt;
  result ← pool_query (SELECT_relevant env queryEmbedding similarityThreshold topK);
  match result with
  | None => throw "TypeError: Cannot read properties of undefined (reading 'rows')"
  | Some rows =>
      mret ((λ row, Hit.mk (Selected.tool_id row) (Selected.similarity row))
              <$> rows)
  end.

Definition registerTool (env : Env) (tool : ToolDefinition.t) : M unit :=
  embedding ← Embedding.generateEmbedding env (Database.searchableText tool);
  _ ← pool_query (Database.UPSERT_tool tool embedding);
  mret ().

Definition setupTools (env : Env) : M unit :=
  forOf (demoTools env) (λ tool,
    modify (λ w, with_toolRegistry (ToolRegistry.register tool (toolRegistry w)) w);;
    registerTool env tool).

(** The name, the instructions and the model are written out in
    [createDynamicAgent] of main.ts; the template literal of the
    instructions ends in a line break and eight spaces. *)
Definition agentOptions : AgentOptions.t :=
  AgentOptions.mk "Dynamic Agent"
    ("You are a helpful assistant with access to specific tools." ++ newline
     ++ "        Use the best tools depending on prompt." ++ newline
     ++ "        You have the ability to remember chat history, past conversations and internal states." ++ newline
     ++ "        Make sure you are able to remember and differentiate between what you said and what the user said, do not confuse the two." ++ newline
     ++ "        ")
    "google/gemini-2.0-flash".

Definition createDynamicAgent (env : Env) (tools : list ToolDefinition.t)
  : M MastraAgent.t :=
  lift (newAgent env agentOptions tools).

Definition handlePrompt (env : Env) (userID prompt : string) : M unit :=
  tools ← findRelevantTools env prompt 3 (6 # 10)%Q;
  relevantTools ← gets (λ w, ToolRegistry.getMultiple (Hit.id <$> tools) (toolRegistry w));
  past ← gets pastTools;
  let merged := mergedTools past relevantTools in
  modify (with_pastTools merged);;
  past ← gets pastTools;
  agent ← createDynamicAgent env past;
  _ ← lift (MastraAgent.generate agent prompt userID);
  mret ().

Definition userID : string := "user1".

Fixpoint promptLoop (env : Env) (lines : list string) (w : World)
  : Res LoopEnd * list string * World :=
  match lines with
  | [] => (Ok Pending, [], w)
  | text :: lines' =>
      if String.eqb (Js.toLowerCase (Js.trim text)) "exit" then
        (Ok Break, [], w)
      else
        match handlePrompt env userID text w with
        | (Ok _, w') =>
            let '(r, ts, w'') := promptLoop env lines' w' in
            (r, text :: ts, w'')
        | (Throw e, w') => (Throw e, [text], w')
        end
  end.

Definition startup (env : Env) : M unit :=
  Embedding.initializeEmbeddingModel env;;
  initDatabase env;;
  setupTools env;;
  modify (with_pastTools []).

(** [main();] has no handler: a rejection is left uncaught. *)
Definition main (env : Env) (lines : list string) : Run :=
  match startup env initialWorld with
  | (Throw e, w) => mkRun (Uncaught e) [] w
  | (Ok _, w) =>
      match promptLoop env lines w with
      | (Throw e, ts, w') => mkRun (Uncaught e) ts w'
      | (Ok Break, ts, w') => mkRun (Exit 0) ts w'
      | (Ok Pending, ts, w') => mkRun AwaitingInput ts w'
      end
  end.
End Main.

(** ** Vocabulary of the statements *)

(** The elements of [l], each at the place of its first occurrence. *)
Fixpoint first_occurrences {A : Type} `{EqDecision A} (l : list A) : list A :=
  match l with
  | [] => []
  | x :: l' => x :: filter (λ y, y ≠ x) (first_occurrences l')
  end.

(** The last tool of [l] that carries the id [i]. *)
Definition last_with_id (i : string) (l : list ToolDefinition.t)
  : option ToolDefinition.t :=
  last (filter (λ t, ToolDefinition.id t = i) l).

(** How many times [x] occurs in [l]. *)
Definition occurrences {A : Type} `{EqDecision A} (x : A) (l : list A) : nat :=
  length (filter (λ y, y = x) l).

(** What [findRelevantTools] of database.ts reports for a stored row. *)
Definition hit_of (env : Env) (q : vector) (r : Row.t) : Hit.t :=
  Hit.mk (Row.tool_id r) (Database.similarity env q r).

(** The stored rows that pass the threshold for the query vector [q]. *)
Definition passing (env : Env) (q : vector) (threshold : Q)
    (rows : list Row.t) : list Row.t :=
  filter (λ r, Float8.lt (Float8.Num threshold) (Database.similarity env q r))
    rows.

(** [a] is no farther from the query vector [q] than [b]. *)
Definition closer (env : Env) (q : vector) : relation Row.t := λ a b,
  Float8.le (cosine_distance env (Row.embedding a) q)
    (cosine_distance env (Row.embedding b) q).


(** C2 as the claim has it: every hit carries a number strictly above the
    threshold. *)
Definition every_hit_exceeds_threshold (env : Env) : Prop :=
  ∀ userPrompt topK threshold w hits w',
    Database.findRelevantTools env userPrompt topK threshold w = (Ok hits, w') →
    Forall (λ h, ∃ s, Hit.similarity h = Float8.Num s ∧ (threshold < s)%Q) hits.


(** The rows of the table behind the pool, if there is one. *)
Definition stored (w : World) : list Row.t :=
  match pool w with
  | Some db => Pool.tool_embeddings db
  | None => []
  end.

(** One turn of the entry point: the call of [handlePrompt] made by its
    prompt loop. *)
Definition turn (env : Env) (text : string) : M unit :=
  Agent.handlePrompt env EntryPoint.userID text
    (Database.findRelevantTools env)
    (λ ids, gets (λ w, ToolRegistry.getMultiple ids (toolRegistry w))).

(** The tool selection of a turn, with the configured parameters. *)
Definition selection (env : Env) (text : string) : M (list Hit.t) :=
  Database.findRelevantTools env text
    (Config.defaultTopK (config_search env))
    (Config.defaultSimilarityThreshold (config_search env)).

(** A line that is neither the exit token nor blank. *)
Definition is_query (text : string) : bool :=
  (negb (String.eqb (Js.toLowerCase (Js.trim text)) "exit")
   && Js.truthy (Js.trim text))%bool.



(** The database once the INSERT of [registerToolInDatabase] has run. *)
Definition after_upsert (tool : ToolDefinition.t) (embedding : vector)
    (db : Pool.t) : Pool.t :=
  (Database.UPSERT_tool tool embedding db).2.

(** The entries [[t.id, t]] handed to [new Map] by the merge. *)
Definition entries (l : list ToolDefinition.t)
  : list (string * ToolDefinition.t) :=
  (λ t, (ToolDefinition.id t, t)) <$> l.

(** The tools held are registry entries with pairwise distinct ids. *)
Definition held_from (reg : ToolRegistry.t) (w : World) : Prop :=
  toolRegistry w = reg
  ∧ Forall (λ t, ToolRegistry.get (ToolDefinition.id t) reg = Some t)
      (pastTools w)
  ∧ NoDup (ToolDefinition.id <$> pastTools w).

(** The ids of a table that held [present] once the tools of ids [ids]
    have been upserted in order: the ids present stay where they are, a new
    id goes to the end when it first comes. *)
Definition upserted (present ids : list string) : list string :=
  present ++ filter (λ i, i ∉ present) (first_occurrences ids).

(** A line that the prompt loop takes for the exit token. *)
Definition exits (text : string) : bool :=
  String.eqb (Js.toLowerCase (Js.trim text)) "exit".

(** ** Sample data *)

Module Sample.
Definition A : ToolDefinition.t :=
  ToolDefinition.mk "get_weather" "Get Weather" "Current weather for a city"
    ["weather"; "forecast"; "temperature"] "{city}" 1.
Definition B : ToolDefinition.t :=
  ToolDefinition.mk "send_email" "Send Email" "Send an email"
    ["email"; "mail"] "{to,subject,body}" 2.
Definition B' : ToolDefinition.t :=
  ToolDefinition.mk "send_email" "Send Email" "Send an email to a recipient"
    ["email"; "mail"; "message"] "{to,subject,body,cc}" 3.
Definition C : ToolDefinition.t :=
  ToolDefinition.mk "create_task" "Create Task" "Create a task"
    ["task"; "todo"] "{title}" 4.
(** A line that holds a no-break space (U+00A0) and nothing else. *)
Definition nbsp : string := String (Ascii.ascii_of_N 160) "".

(** The tool [B] under a name of 255 letters and a space. *)
Definition padded : ToolDefinition.t :=
  ToolDefinition.mk "send_email"
    (String.concat "" (replicate 255 "n") ++ " ") "Send an email"
    ["email"; "mail"] "{to,subject,body}" 2.
End Sample.

Module SampleEnv.
(** Vectors with their first two coordinates given and zeros after. *)
Definition vec (x y : Q) : vector :=
  x :: y :: replicate (DIMENSIONS - 2) 0%Q.

Definition dot (u v : vector) : Q :=
  foldr Qplus 0%Q (zip_with Qmult u v).

(** pgvector's cosine distance on the vectors of the samples, which have
    norm one or zero: NaN when a norm is zero. *)
Definition distance (u v : vector) : Float8.t :=
  if (Qeq_bool (dot u u) 0 || Qeq_bool (dot v v) 0)%bool then Float8.NaN
  else Float8.Num (1 - dot u v).

Definition embed_text (text : string) : vector :=
  if decide (text = Database.searchableText Sample.A) then vec 1 0
  else if decide (text = Database.searchableText Sample.B) then vec 0 1
  else if decide (text = "what's the weather in Boston") then vec 1 0
  else if decide (text = "email john about the meeting") then vec 0 1
  else if decide (text = "weather or email") then vec (21 # 29) (20 # 29)
  else if decide (text = "on the line") then vec (6 # 10) (8 # 10)
  else vec 0 0.

Definition model : FlagEmbedding.t :=
  FlagEmbedding.mk (λ texts,
    if decide (texts = ["no batch"]) then Ok []
    else if decide (texts = ["empty batch"]) then Ok [[]]
    else Ok [embed_text <$> texts]).

Definition agent : MastraAgent.t :=
  MastraAgent.mk (λ prompt resource, Ok "ok").

(** [config.agent] when no variable sets it. *)
Definition options : AgentOptions.t :=
  AgentOptions.mk "Dynamic Agent" ConfigTs.defaultInstructions
    "google/gemini-2.0-flash".

Definition env : Env :=
  mkEnv (Some "postgresql://localhost/tools") (Ok model) distance (Ok ())
    (Pool.mk [] 1 1000 None) (λ options tools, Ok agent) [Sample.A; Sample.B]
    (Config.mk 3 (6 # 10)) options.


(** The state once the entry point has finished its start-up. *)
Definition ready : World := (EntryPoint.startup env initialWorld).2.


(** The tools of tools.ts, with a placeholder for schema and function,
    and an environment that registers them. *)
Definition demo : list ToolDefinition.t :=
  (λ s, ToolDefinition.mk (Snapshot.id s) (Snapshot.name s)
          (Snapshot.description s) (Snapshot.keywords s) "{}" 0)
    <$> Tools.demoTools.

Definition full : Env :=
  mkEnv (Some "postgresql://localhost/tools") (Ok model) distance (Ok ())
    (Pool.mk [] 1 1000 None) (λ options tools, Ok agent) demo
    (Config.mk 3 (6 # 10)) options.
End SampleEnv.

(** Variants of the sample environment in which a collaborator fails. *)
Module SampleFaults.
Definition agent_down : Env :=
  mkEnv (Some "postgresql://localhost/tools") (Ok SampleEnv.model)
    SampleEnv.distance (Ok ()) (Pool.mk [] 1 1000 None)
    (λ options tools, Throw "agent unavailable") [Sample.A; Sample.B]
    (Config.mk 3 (6 # 10)) SampleEnv.options.

Definition no_model : Env :=
  mkEnv (Some "postgresql://localhost/tools") (Throw "model download failed")
    SampleEnv.distance (Ok ()) (Pool.mk [] 1 1000 None)
    (λ options tools, Ok SampleEnv.agent) [Sample.A; Sample.B]
    (Config.mk 3 (6 # 10)) SampleEnv.options.

Definition unreachable : Env :=
  mkEnv (Some "postgresql://localhost/tools") (Ok SampleEnv.model)
    SampleEnv.distance (Throw "connect ECONNREFUSED") (Pool.mk [] 1 1000 None)
    (λ options tools, Ok SampleEnv.agent) [Sample.A; Sample.B]
    (Config.mk 3 (6 # 10)) SampleEnv.options.

(** A tool whose searchable text is [no batch], for which the sample model
    yields nothing. *)
Definition unembeddable : ToolDefinition.t :=
  ToolDefinition.mk "odd" "no batch" "" [] "{}" 9.

(** A store that fails every statement. *)
Definition store_down : Env :=
  mkEnv (Some "postgresql://localhost/tools") (Ok SampleEnv.model)
    SampleEnv.distance (Ok ()) (Pool.mk [] 1 1000 (Some "connection lost"))
    (λ options tools, Ok SampleEnv.agent) [Sample.A; Sample.B]
    (Config.mk 3 (6 # 10)) SampleEnv.options.

(** The second of three tools cannot be embedded. *)
Definition odd_tool : Env :=
  mkEnv (Some "postgresql://localhost/tools") (Ok SampleEnv.model)
    SampleEnv.distance (Ok ()) (Pool.mk [] 1 1000 None)
    (λ options tools, Ok SampleEnv.agent) [Sample.A; unembeddable; Sample.B]
    (Config.mk 3 (6 # 10)) SampleEnv.options.
End SampleFaults.

(** * Properties *)

(** ** The JavaScript [Map] *)

Section MapFacts.
Context {K V : Type} `{EqDecision K}.
Implicit Types (k : K) (v : V) (m es : list (K * V)).

Lemma Map_set_keys k v m :
  (Js.Map_set k v m).*1 = if decide (k ∈ m.*1) then m.*1 else m.*1 ++ [k].
Proof.
  induction m as [|[k' v'] m IH].
  - destruct (decide (k ∈ ([] : list (K * V)).*1)) as [Hin|_]; [|done].
    by apply elem_of_nil in Hin.
  - cbn [Js.Map_set].
    destruct (decide (k ∈ ((k', v') :: m).*1)) as [Hin|Hnin];
      destruct (decide (k = k')) as [->|Hne]; cbn [fmap list_fmap fst] in *.
    + done.
    + rewrite IH. apply elem_of_cons in Hin as [?|Hin]; [done|].
      by rewrite decide_True.
    + destruct Hnin. left.
    + rewrite IH. rewrite decide_False; [done|].
      intros ?. apply Hnin. by right.
Qed.

Lemma Map_set_entries k v m e :
  e ∈ Js.Map_set k v m → e = (k, v) ∨ e ∈ m.
Proof.
  induction m as [|[k' v'] m IH]; simpl.
  - intros ->%list_elem_of_singleton. by left.
  - destruct (decide (k = k')) as [->|Hne].
    + intros [->|?]%elem_of_cons; [by left | right; by right].
    + intros [->|Hin]%elem_of_cons; [right; left |].
      destruct (IH Hin); [by left | right; by right].
Qed.

Lemma Map_get_set k k' v m :
  Js.Map_get k (Js.Map_set k' v m)
  = if decide (k = k') then Some v else Js.Map_get k m.
Proof.
  induction m as [|[k0 v0] m IH]; simpl.
  - done.
  - destruct (decide (k' = k0)) as [->|Hne]; simpl.
    + destruct (decide (k = k0)); done.
    + rewrite IH. destruct (decide (k = k0)) as [->|]; [|done].
      rewrite decide_False; done.
Qed.

Lemma Map_get_entry k v m :
  NoDup m.*1 → (k, v) ∈ m → Js.Map_get k m = Some v.
Proof.
  induction m as [|[k' v'] m IH]; simpl.
  - by intros _ ?%elem_of_nil.
  - intros [Hnin Hnd]%NoDup_cons [Heq|Hin]%elem_of_cons.
    + injection Heq as -> ->. by rewrite decide_True.
    + destruct (decide (k = k')) as [->|]; [|by apply IH].
      destruct Hnin. apply list_elem_of_fmap. by exists (k', v).
Qed.

Lemma Map_setAll_entries m es e : e ∈ Js.Map_setAll m es → e ∈ m ∨ e ∈ es.
Proof.
  revert m. induction es as [|[k v] es IH]; simpl; intros m.
  - by left.
  - intros [Hin|Hin]%IH.
    + apply Map_set_entries in Hin as [->|?]; [right; left | by left].
    + right; by right.
Qed.

Lemma Map_setAll_get k m es :
  Js.Map_get k (Js.Map_setAll m es)
  = match last (filter (λ e, e.1 = k) es) with
    | Some e => Some e.2
    | None => Js.Map_get k m
    end.
Proof.
  revert m. induction es as [|[k' v'] es IH]; simpl; intros m; [done|].
  rewrite IH, Map_get_set, filter_cons. simpl.
  destruct (decide (k' = k)) as [->|Hne].
  - rewrite decide_True by done. rewrite last_cons.
    by destruct (last (filter _ es)).
  - rewrite decide_False by done. done.
Qed.
End MapFacts.

(** ** First occurrences *)

Section FirstOccurrences.
Context {A : Type} `{EqDecision A}.
Implicit Types (x : A) (l : list A).

Lemma filter_ne_idem x l :
  filter (λ y, y ≠ x) (filter (λ y, y ≠ x) l) = filter (λ y, y ≠ x) l.
Proof.
  induction l as [|y l IH]; [done|].
  rewrite filter_cons. destruct (decide (y ≠ x)) as [Hy|Hy]; [|done].
  rewrite filter_cons_True by done. by rewrite IH.
Qed.

Lemma filter_ne_comm x y l :
  filter (λ z, z ≠ x) (filter (λ z, z ≠ y) l)
  = filter (λ z, z ≠ y) (filter (λ z, z ≠ x) l).
Proof.
  induction l as [|z l IH]; [done|].
  rewrite !(filter_cons _ z).
  destruct (decide (z ≠ y)), (decide (z ≠ x));
    rewrite ?filter_cons_True, ?filter_cons_False by done; by rewrite ?IH.
Qed.

Lemma first_occurrences_filter x l :
  filter (λ y, y ≠ x) (first_occurrences l)
  = first_occurrences (filter (λ y, y ≠ x) l).
Proof.
  induction l as [|y l IH]; [done|].
  cbn [first_occurrences]. rewrite !(filter_cons _ y).
  destruct (decide (y ≠ x)) as [Hy|Hy].
  - cbn [first_occurrences]. by rewrite filter_ne_comm, IH.
  - apply dec_stable in Hy as ->. by rewrite filter_ne_idem, IH.
Qed.

Lemma first_occurrences_repeat x l1 l2 :
  x ∈ l1 →
  first_occurrences (l1 ++ x :: l2) = first_occurrences (l1 ++ l2).
Proof.
  induction l1 as [|y l1 IH]; [by intros ?%elem_of_nil|].
  intros Hin. cbn [app first_occurrences]. f_equal.
  destruct (decide (x = y)) as [->|Hne].
  - rewrite !first_occurrences_filter, !filter_app.
    by rewrite filter_cons_False by (intros ?; done).
  - apply elem_of_cons in Hin as [?|Hin]; [done|]. by rewrite IH.
Qed.

Lemma elem_of_first_occurrences x l : x ∈ first_occurrences l ↔ x ∈ l.
Proof.
  induction l as [|y l IH]; [done|].
  cbn [first_occurrences]. rewrite !elem_of_cons, list_elem_of_filter, IH.
  destruct (decide (x = y)); tauto.
Qed.

Lemma NoDup_first_occurrences l : NoDup (first_occurrences l).
Proof.
  induction l as [|y l IH]; [constructor|].
  cbn [first_occurrences]. apply NoDup_cons. split.
  - rewrite list_elem_of_filter. by intros [? _].
  - by apply NoDup_filter.
Qed.

Lemma first_occurrences_NoDup l : NoDup l → first_occurrences l = l.
Proof.
  induction l as [|y l IH]; [done|].
  intros [Hnin Hnd]%NoDup_cons. cbn [first_occurrences].
  rewrite IH by done. f_equal.
  clear IH Hnd. induction l as [|z l IH]; [done|].
  rewrite filter_cons_True.
  - f_equal. apply IH. intros ?. apply Hnin. by right.
  - intros ->. apply Hnin. left.
Qed.

Lemma length_first_occurrences l :
  length (first_occurrences l) = length (remove_dups l).
Proof.
  apply Permutation_length, NoDup_Permutation.
  - apply NoDup_first_occurrences.
  - apply NoDup_remove_dups.
  - intros x. by rewrite elem_of_first_occurrences, elem_of_remove_dups.
Qed.
End FirstOccurrences.

Section MapNew.
Context {K V : Type} `{EqDecision K}.
Implicit Types (k : K) (v : V) (m es : list (K * V)).

Lemma Map_set_NoDup k v m : NoDup m.*1 → NoDup (Js.Map_set k v m).*1.
Proof.
  intros Hnd. rewrite Map_set_keys. case_decide; [done|].
  apply NoDup_app. split_and!; [done | | apply NoDup_singleton].
  intros x Hx ->%list_elem_of_singleton. done.
Qed.

Lemma Map_setAll_keys m es :
  NoDup m.*1 → (Js.Map_setAll m es).*1 = first_occurrences (m.*1 ++ es.*1).
Proof.
  revert m. induction es as [|[k v] es IH]; intros m Hnd.
  - cbn. rewrite app_nil_r. by rewrite first_occurrences_NoDup.
  - cbn [Js.Map_setAll foldl fst snd]. fold (Js.Map_setAll (Js.Map_set k v m) es).
    rewrite IH by by apply Map_set_NoDup.
    rewrite Map_set_keys. cbn [fmap list_fmap fst].
    case_decide.
    + by rewrite first_occurrences_repeat.
    + by rewrite <-app_assoc.
Qed.

Lemma Map_new_keys es : (Js.Map_new es).*1 = first_occurrences es.*1.
Proof. unfold Js.Map_new. rewrite Map_setAll_keys; [done | constructor]. Qed.

Lemma Map_new_last k v es :
  (k, v) ∈ Js.Map_new es →
  last (filter (λ e, e.1 = k) es) = Some (k, v).
Proof.
  intros Hin.
  assert (Hget : Js.Map_get k (Js.Map_new es) = Some v).
  { apply Map_get_entry; [|done].
    rewrite Map_new_keys. apply NoDup_first_occurrences. }
  unfold Js.Map_new in Hget. rewrite Map_setAll_get in Hget.
  destruct (last (filter (λ e, e.1 = k) es)) as [[k' v']|] eqn:Hlast;
    [|done].
  injection Hget as <-. f_equal. f_equal.
  apply last_Some in Hlast as [l' Hl'].
  assert (Hk : (k', v') ∈ filter (λ e : K * V, e.1 = k) es).
  { rewrite Hl'. apply elem_of_app. right. left. }
  by apply list_elem_of_filter in Hk as [Hk _].
Qed.
End MapNew.

(** ** The merge of a turn *)

Lemma filter_fmap {A B : Type} (f : A → B) (P : B → Prop)
    `{∀ y, Decision (P y)} (l : list A) :
  filter P (f <$> l) = f <$> filter (λ x, P (f x)) l.
Proof.
  induction l as [|x l IH]; [done|].
  cbn [fmap list_fmap]. rewrite !filter_cons.
  destruct (decide (P (f x))); cbn [fmap list_fmap]; by rewrite IH.
Qed.

Lemma mergedTools_ids previous incoming :
  ToolDefinition.id <$> mergedTools previous incoming
  = first_occurrences (ToolDefinition.id <$> (previous ++ incoming)).
Proof.
  unfold mergedTools, Js.Map_values.
  set (es := (λ t, (ToolDefinition.id t, t)) <$> (previous ++ incoming)).
  assert (Hkeys : ∀ e, e ∈ Js.Map_new es → e.1 = ToolDefinition.id e.2).
  { intros e [Hin|Hin]%Map_setAll_entries; [by apply elem_of_nil in Hin|].
    apply list_elem_of_fmap in Hin as (t & -> & _). done. }
  transitivity ((Js.Map_new es).*1).
  - rewrite <-list_fmap_compose. apply list_fmap_ext.
    intros i e He. symmetry. apply Hkeys. by eapply list_elem_of_lookup_2.
  - rewrite Map_new_keys. unfold es. by rewrite <-list_fmap_compose.
Qed.

Lemma mergedTools_last previous incoming t :
  t ∈ mergedTools previous incoming →
  last_with_id (ToolDefinition.id t) (previous ++ incoming) = Some t.
Proof.
  unfold mergedTools, Js.Map_values, last_with_id.
  set (all := previous ++ incoming).
  set (es := (λ t, (ToolDefinition.id t, t)) <$> all).
  intros ([k t'] & -> & Hin)%list_elem_of_fmap. cbn [snd].
  assert (k = ToolDefinition.id t') as ->.
  { apply Map_setAll_entries in Hin as [Hin|Hin];
      [by apply elem_of_nil in Hin|].
    apply list_elem_of_fmap in Hin as (t & [= -> ->] & _). done. }
  apply Map_new_last in Hin. unfold es in Hin.
  rewrite filter_fmap, fmap_last in Hin. cbn [fst] in Hin.
  destruct (last _) as [t|] eqn:Hlast in Hin; [|done].
  injection Hin as _ ->. exact Hlast.
Qed.

Lemma mergedTools_NoDup previous incoming :
  NoDup (ToolDefinition.id <$> mergedTools previous incoming).
Proof. rewrite mergedTools_ids. apply NoDup_first_occurrences. Qed.

(** C1. The merge walks [previous] then [incoming]: the ids of the result
    are the ids of the concatenation, each at the place of its first
    occurrence; the tool kept for an id is the last one carrying it; no id
    is repeated; the length is the number of distinct ids; and
    [[A; B]] merged with [[B'; C]], where [B'] has the id of [B], is
    [[A; B'; C]]. *)
Theorem mergedTools_first_position_last_value
    (previous incoming : list ToolDefinition.t) :
  let all := previous ++ incoming in
  let merged := mergedTools previous incoming in
  ToolDefinition.id <$> merged = first_occurrences (ToolDefinition.id <$> all)
  ∧ Forall (λ t, last_with_id (ToolDefinition.id t) all = Some t) merged
  ∧ NoDup (ToolDefinition.id <$> merged)
  ∧ length merged = length (remove_dups (ToolDefinition.id <$> all))
  ∧ ∀ A B B' C : ToolDefinition.t,
      ToolDefinition.id B' = ToolDefinition.id B →
      NoDup [ToolDefinition.id A; ToolDefinition.id B; ToolDefinition.id C] →
      mergedTools [A; B] [B'; C] = [A; B'; C].
Proof.
  intros all merged. split_and!.
  - apply mergedTools_ids.
  - apply Forall_forall. intros t Ht. by apply mergedTools_last.
  - apply mergedTools_NoDup.
  - rewrite <-length_first_occurrences, <-(length_fmap ToolDefinition.id).
    f_equal. apply mergedTools_ids.
  - intros A B B' C HB Hnd.
    apply NoDup_cons in Hnd as [HA Hnd]. apply NoDup_cons in Hnd as [HBC _].
    assert (Hba : ToolDefinition.id B ≠ ToolDefinition.id A).
    { intros E. apply HA. rewrite E. left. }
    assert (Hca : ToolDefinition.id C ≠ ToolDefinition.id A).
    { intros E. apply HA. rewrite E. right. left. }
    assert (Hcb : ToolDefinition.id C ≠ ToolDefinition.id B).
    { intros E. apply HBC. rewrite E. left. }
    unfold mergedTools, Js.Map_values, Js.Map_new, Js.Map_setAll.
    cbn [app fmap list_fmap foldl fst snd]. rewrite HB.
    repeat (cbn [Js.Map_set];
            first [rewrite decide_True by done | rewrite decide_False by done]).
    done.
Qed.

Lemma mergedTools_first_position_last_value_witness :
  (let all := [Sample.A; Sample.B] ++ [Sample.B'; Sample.C] in
   let merged := mergedTools [Sample.A; Sample.B] [Sample.B'; Sample.C] in
   ToolDefinition.id <$> merged = first_occurrences (ToolDefinition.id <$> all)
   ∧ Forall (λ t, last_with_id (ToolDefinition.id t) all = Some t) merged
   ∧ NoDup (ToolDefinition.id <$> merged)
   ∧ length merged = length (remove_dups (ToolDefinition.id <$> all)))
  ∧ mergedTools [Sample.A; Sample.B] [Sample.B'; Sample.C]
    = [Sample.A; Sample.B'; Sample.C].
Proof.
  pose proof (mergedTools_first_position_last_value
                [Sample.A; Sample.B] [Sample.B'; Sample.C]) as H.
  cbv zeta in H. destruct H as (H1 & H2 & H3 & H4 & H5).
  split; [by split_and! |].
  apply H5; [reflexivity |].
  apply (bool_decide_unpack _). vm_compute. exact I.
Defined.


(** ** The registry *)

Lemma getMultiple_cons (i : string) (toolIds : list string) (reg : ToolRegistry.t) :
  ToolRegistry.getMultiple (i :: toolIds) reg
  = match ToolRegistry.get i reg with
    | Some tool => tool :: ToolRegistry.getMultiple toolIds reg
    | None => ToolRegistry.getMultiple toolIds reg
    end.
Proof.
  unfold ToolRegistry.getMultiple. cbn [fmap list_fmap omap list_omap].
  by destruct (ToolRegistry.get i reg).
Qed.

Lemma registerAll_keys (tools : list ToolDefinition.t) (reg : ToolRegistry.t) :
  (∀ i t, ToolRegistry.get i reg = Some t → ToolDefinition.id t = i) →
  ∀ i t, ToolRegistry.get i (ToolRegistry.registerAll tools reg) = Some t →
         ToolDefinition.id t = i.
Proof.
  revert reg. induction tools as [|tool tools IH]; intros reg Hreg; [done|].
  cbn [ToolRegistry.registerAll foldl]. apply IH. clear IH.
  intros i t. unfold ToolRegistry.get, ToolRegistry.register.
  cbn [ToolRegistry.tools]. rewrite lookup_insert.
  case_decide as Hi; [by intros [= <-] | apply Hreg].
Qed.

(** C5. [getMultiple] answers with the registered tools of the ids given,
    in the order given, and leaves out every id that is not registered; it
    is a total function, so a missing id raises nothing. With [a] and [b]
    registered and [missing] not, [[a; missing; b]] gives the tools of [a]
    and [b]. *)
Theorem getMultiple_order_and_omission
    (reg : ToolRegistry.t) (toolIds : list string) :
  Forall2 (λ i tool, ToolRegistry.get i reg = Some tool)
    (filter (λ i, is_Some (ToolRegistry.get i reg)) toolIds)
    (ToolRegistry.getMultiple toolIds reg)
  ∧ ∀ (a b missing : string) (toolA toolB : ToolDefinition.t),
      ToolRegistry.get a reg = Some toolA →
      ToolRegistry.get b reg = Some toolB →
      ToolRegistry.get missing reg = None →
      ToolRegistry.getMultiple [a; missing; b] reg = [toolA; toolB].
Proof.
  split.
  - induction toolIds as [|i toolIds IH]; [constructor|].
    rewrite getMultiple_cons, filter_cons.
    destruct (ToolRegistry.get i reg) as [tool|] eqn:Hi.
    + rewrite decide_True by by eexists. by constructor.
    + rewrite decide_False by by intros [? ?]. done.
  - intros a b missing toolA toolB Ha Hb Hmissing.
    rewrite !getMultiple_cons, Ha, Hb, Hmissing. done.
Qed.

Lemma getMultiple_order_and_omission_witness :
  let reg := ToolRegistry.registerAll [Sample.A; Sample.B] ToolRegistry.new in
  let toolIds := ["get_weather"; "missing"; "send_email"] in
  filter (λ i, is_Some (ToolRegistry.get i reg)) toolIds
  = ["get_weather"; "send_email"]
  ∧ Forall2 (λ i tool, ToolRegistry.get i reg = Some tool)
      ["get_weather"; "send_email"] (ToolRegistry.getMultiple toolIds reg)
  ∧ ToolRegistry.getMultiple toolIds reg = [Sample.A; Sample.B].
Proof.
  intros reg toolIds.
  destruct (getMultiple_order_and_omission reg toolIds) as [Hall Hthree].
  split_and!.
  - reflexivity.
  - exact Hall.
  - apply Hthree; reflexivity.
Defined.

Lemma occurrences_elem_of {A} `{EqDecision A} (x : A) (l : list A) :
  (1 ≤ occurrences x l)%nat ↔ x ∈ l.
Proof.
  unfold occurrences. split.
  - destruct (filter (λ y, y = x) l) as [|y l'] eqn:Hf; cbn [length]; [lia|].
    intros _. assert (Hy : y ∈ filter (λ y, y = x) l) by (rewrite Hf; left).
    by apply list_elem_of_filter in Hy as [-> Hy].
  - intros Hx.
    assert (Hin : x ∈ filter (λ y, y = x) l) by (by apply list_elem_of_filter).
    destruct (filter (λ y, y = x) l); [by apply elem_of_nil in Hin|].
    cbn [length]. lia.
Qed.

Lemma occurrences_NoDup {A} `{EqDecision A} (x : A) (l : list A) :
  NoDup l → x ∈ l → occurrences x l = 1%nat.
Proof.
  unfold occurrences. induction 1 as [|y l Hy Hnd IH]; [by intros ?%elem_of_nil|].
  intros Hx. rewrite filter_cons. destruct (decide (y = x)) as [->|Hne].
  - cbn [length]. f_equal.
    destruct (filter (λ y, y = x) l) as [|z l'] eqn:Hf; [done|].
    assert (Hz : z ∈ filter (λ y, y = x) l) by (rewrite Hf; left).
    by apply list_elem_of_filter in Hz as [-> Hz].
  - apply IH. by apply elem_of_cons in Hx as [?|?].
Qed.

(** C10. [getMultiple] does not deduplicate: in a registry filled by
    [register], a registered id yields its tool once for each of its
    occurrences in the input, so an id given twice is twice in the
    output. The ids are made unique only by the merge that follows, which
    loses none: its ids are the distinct ids of the tools held and of the
    tools [getMultiple] gave, each at its first place, and a registered id
    of the input, however often it was given, is there exactly once. *)
Theorem getMultiple_keeps_repetitions
    (tools past : list ToolDefinition.t) (toolIds : list string) (i : string) :
  let reg := ToolRegistry.registerAll tools ToolRegistry.new in
  is_Some (ToolRegistry.get i reg) →
  occurrences i (ToolDefinition.id <$> ToolRegistry.getMultiple toolIds reg)
  = occurrences i toolIds
  ∧ (2 ≤ occurrences i toolIds →
     ¬ NoDup (ToolDefinition.id <$> ToolRegistry.getMultiple toolIds reg))%nat
  ∧ NoDup (ToolDefinition.id
             <$> mergedTools past (ToolRegistry.getMultiple toolIds reg))
  ∧ ToolDefinition.id <$> mergedTools past (ToolRegistry.getMultiple toolIds reg)
    = first_occurrences
        ((ToolDefinition.id <$> past)
         ++ (ToolDefinition.id <$> ToolRegistry.getMultiple toolIds reg))
  ∧ ((1 ≤ occurrences i toolIds)%nat →
     occurrences i
       (ToolDefinition.id
          <$> mergedTools past (ToolRegistry.getMultiple toolIds reg))
     = 1%nat).
Proof.
  intros reg Hi.
  assert (Hkeys : ∀ j t, ToolRegistry.get j reg = Some t → ToolDefinition.id t = j).
  { apply registerAll_keys. intros j t.
    unfold ToolRegistry.get, ToolRegistry.new. cbn [ToolRegistry.tools].
    by rewrite lookup_empty. }
  assert (Hocc : occurrences i (ToolDefinition.id <$> ToolRegistry.getMultiple toolIds reg)
                 = occurrences i toolIds).
  { unfold occurrences. induction toolIds as [|j toolIds IH]; [done|].
    rewrite getMultiple_cons, (filter_cons _ j).
    destruct (ToolRegistry.get j reg) as [t|] eqn:Hj.
    - cbn [fmap list_fmap]. rewrite filter_cons, (Hkeys _ _ Hj).
      destruct (decide (j = i)); cbn [length]; by rewrite IH.
    - rewrite decide_False; [done|]. intros ->.
      destruct Hi as [t Ht]. congruence. }
  split_and!; [done | | apply mergedTools_NoDup | |].
  - rewrite <-Hocc. unfold occurrences. intros Hlen Hnd.
    apply (NoDup_filter (λ y, y = i)) in Hnd.
    destruct (filter _ _) as [|x [|y l]] eqn:Hf; cbn [length] in Hlen; [lia..|].
    assert (Hx : x ∈ x :: y :: l) by left.
    assert (Hy : y ∈ x :: y :: l) by (right; left).
    rewrite <-Hf in Hx, Hy.
    apply list_elem_of_filter in Hx as [-> _].
    apply list_elem_of_filter in Hy as [-> _].
    apply NoDup_cons in Hnd as [Hnin _]. apply Hnin. left.
  - by rewrite mergedTools_ids, fmap_app.
  - intros Hgiven. apply occurrences_NoDup; [apply mergedTools_NoDup|].
    rewrite mergedTools_ids, elem_of_first_occurrences, fmap_app, elem_of_app.
    right. apply occurrences_elem_of. by rewrite Hocc.
Qed.

Lemma getMultiple_keeps_repetitions_witness :
  let reg := ToolRegistry.registerAll [Sample.A; Sample.B] ToolRegistry.new in
  let toolIds := ["send_email"; "get_weather"; "send_email"] in
  ToolRegistry.getMultiple toolIds reg = [Sample.B; Sample.A; Sample.B]
  ∧ occurrences "send_email"
      (ToolDefinition.id <$> ToolRegistry.getMultiple toolIds reg) = 2%nat
  ∧ ¬ NoDup (ToolDefinition.id <$> ToolRegistry.getMultiple toolIds reg)
  ∧ mergedTools [] (ToolRegistry.getMultiple toolIds reg) = [Sample.B; Sample.A]
  ∧ occurrences "send_email"
      (ToolDefinition.id
         <$> mergedTools [] (ToolRegistry.getMultiple toolIds reg)) = 1%nat.
Proof.
  intros reg toolIds.
  destruct (getMultiple_keeps_repetitions [Sample.A; Sample.B] []
              toolIds "send_email") as (H1 & H2 & _ & _ & H5).
  - by eexists.
  - fold reg in H1, H2, H5. split_and!.
    + reflexivity.
    + rewrite H1. reflexivity.
    + apply H2. vm_compute. lia.
    + reflexivity.
    + apply H5. vm_compute. lia.
Defined.


(** ** The similarity query *)

Lemma Float8_le_trans (x y z : Float8.t) :
  Float8.le x y → Float8.le y z → Float8.le x z.
Proof. destruct x, y, z; cbn; try done. apply Qle_trans. Qed.

Lemma Float8_le_total (x y : Float8.t) : Float8.le x y ∨ Float8.le y x.
Proof.
  destruct x as [a|], y as [b|]; cbn; try tauto.
  destruct (Qlt_le_dec a b) as [H|H]; [left; by apply Qlt_le_weak | by right].
Qed.

Lemma Float8_lt_Num (t : Q) (x : Float8.t) :
  Float8.lt (Float8.Num t) x ↔
  match x with Float8.Num s => (t < s)%Q | Float8.NaN => True end.
Proof. by destruct x. Qed.

Section Query.
Context (env : Env) (q : vector).

#[local] Instance closer_trans : Transitive (closer env q).
Proof. intros a b c. unfold closer. apply Float8_le_trans. Qed.

#[local] Instance closer_total : Total (closer env q).
Proof. intros a b. unfold closer. apply Float8_le_total. Qed.


Lemma ORDER_BY_distance_perm (rows : list Row.t) :
  Sql.ORDER_BY (λ r, cosine_distance env (Row.embedding r) q) rows ≡ₚ rows.
Proof. unfold Sql.ORDER_BY. apply merge_sort_Permutation. Qed.

End Query.

(** What a successful call of [findRelevantTools] went through. *)
Lemma findRelevantTools_Ok env userPrompt topK threshold w hits w' :
  Database.findRelevantTools env userPrompt topK threshold w = (Ok hits, w') →
  ∃ q w1 db,
    Embedding.generateEmbedding env userPrompt w = (Ok q, w1)
    ∧ pool w1 = Some db
    ∧ w' = with_pool (Some db) w1
    ∧ (0 ≤ topK)%Z
    ∧ hits = hit_of env q
               <$> take (Z.to_nat topK)
                     (Sql.ORDER_BY (λ r, cosine_distance env (Row.embedding r) q)
                        (passing env q threshold (Pool.tool_embeddings db))).
Proof.
  unfold Database.findRelevantTools, mbind, M_bind.
  destruct (Embedding.generateEmbedding env userPrompt w) as [[q|e] w1];
    [|discriminate].
  unfold pool_query. destruct (pool w1) as [db|] eqn:Hpool; [|discriminate].
  destruct (Pool.failure db); [discriminate|].
  unfold Database.SELECT_relevant.
  destruct (negb _); [discriminate|].
  unfold Sql.LIMIT. destruct (Z.ltb_spec topK 0) as [|Hk]; [discriminate|].
  unfold mret, M_ret. intros [= <- <-].
  exists q, w1, db. split_and!; try done.
  rewrite <-list_fmap_compose. done.
Qed.

(** A call returns whenever the prompt is embedded, the pool is there and
    answers, the dimensions agree and [topK] is not negative. *)
Lemma findRelevantTools_returns env userPrompt topK threshold w q w1 db :
  Embedding.generateEmbedding env userPrompt w = (Ok q, w1) →
  pool w1 = Some db →
  Pool.failure db = None →
  Sql.same_dimensions q (Pool.tool_embeddings db) = true →
  (0 ≤ topK)%Z →
  ∃ hits,
    Database.findRelevantTools env userPrompt topK threshold w
    = (Ok hits, with_pool (Some db) w1).
Proof.
  intros Hq Hpool Hfail Hdim Hk.
  unfold Database.findRelevantTools, mbind, M_bind. rewrite Hq.
  unfold pool_query. rewrite Hpool, Hfail.
  unfold Database.SELECT_relevant. rewrite Hdim. cbn [negb].
  unfold Sql.LIMIT. destruct (Z.ltb_spec topK 0) as [|_]; [lia|].
  eexists. reflexivity.
Qed.

Lemma findRelevantTools_Ok_with env userPrompt topK threshold w q w1 hits w' :
  Embedding.generateEmbedding env userPrompt w = (Ok q, w1) →
  Database.findRelevantTools env userPrompt topK threshold w = (Ok hits, w') →
  (0 ≤ topK)%Z
  ∧ hits = hit_of env q
             <$> take (Z.to_nat topK)
                   (Sql.ORDER_BY (λ r, cosine_distance env (Row.embedding r) q)
                      (passing env q threshold (stored w'))).
Proof.
  intros Hq (q' & w1' & db & Hq' & Hpool & -> & Hk & ->)%findRelevantTools_Ok.
  rewrite Hq in Hq'. injection Hq' as <- <-.
  unfold stored, with_pool. cbn [pool]. done.
Qed.

(** C2, as the code has it. Every hit of [findRelevantTools] carries a
    similarity that is a number strictly above the threshold, or NaN; a
    hit carries NaN only for a stored row whose cosine distance to the
    query vector is NaN, so that, when no stored row has such a distance,
    every hit is strictly above the threshold. A stored row whose
    similarity to the query vector equals the threshold is not among the
    hits. *)
Theorem findRelevantTools_strictly_above_threshold
    env userPrompt topK threshold w q w1 hits w' :
  Embedding.generateEmbedding env userPrompt w = (Ok q, w1) →
  Database.findRelevantTools env userPrompt topK threshold w = (Ok hits, w') →
  Forall (λ h, match Hit.similarity h with
               | Float8.Num s => (threshold < s)%Q
               | Float8.NaN => True
               end) hits
  ∧ Forall (λ h, Hit.similarity h = Float8.NaN →
                 ∃ r, r ∈ stored w' ∧ h = hit_of env q r
                      ∧ cosine_distance env (Row.embedding r) q = Float8.NaN)
      hits
  ∧ (Forall (λ r, cosine_distance env (Row.embedding r) q ≠ Float8.NaN)
       (stored w') →
     Forall (λ h, ∃ s, Hit.similarity h = Float8.Num s ∧ (threshold < s)%Q)
       hits)
  ∧ Forall (λ r, ∀ s, Database.similarity env q r = Float8.Num s →
                      (s == threshold)%Q → hit_of env q r ∉ hits) (stored w').
Proof.
  intros Hq Hfind.
  destruct (findRelevantTools_Ok_with _ _ _ _ _ _ _ _ _ Hq Hfind) as [_ ->].
  assert (Hfrom : ∀ h,
    h ∈ hit_of env q
          <$> take (Z.to_nat topK)
                (Sql.ORDER_BY (λ r, cosine_distance env (Row.embedding r) q)
                   (passing env q threshold (stored w'))) →
    ∃ r, r ∈ stored w' ∧ h = hit_of env q r
         ∧ Float8.lt (Float8.Num threshold) (Database.similarity env q r)).
  { intros h (r & -> & Hr%subseteq_take)%list_elem_of_fmap.
    rewrite ORDER_BY_distance_perm in Hr.
    apply list_elem_of_filter in Hr as [Habove Hr]. by exists r. }
  split_and!.
  - apply Forall_forall. intros h (r & _ & -> & Habove)%Hfrom.
    cbn [hit_of Hit.similarity]. by apply Float8_lt_Num.
  - apply Forall_forall. intros h (r & Hr & -> & _)%Hfrom Hnan.
    exists r. split_and!; [done..|].
    cbn [hit_of Hit.similarity] in Hnan. unfold Database.similarity in Hnan.
    by destruct (cosine_distance env (Row.embedding r) q).
  - intros Hnum. apply Forall_forall. intros h (r & Hr & -> & Habove)%Hfrom.
    rewrite Forall_forall in Hnum. specialize (Hnum r Hr).
    cbn [hit_of Hit.similarity]. unfold Database.similarity in *.
    destruct (cosine_distance env (Row.embedding r) q) as [d|]; [|done].
    eexists. split; [reflexivity | exact Habove].
  - apply Forall_forall. intros r _ s Hs Heq (r' & _ & Hhit & Habove)%Hfrom.
    assert (Hsame : Database.similarity env q r' = Float8.Num s).
    { rewrite <-Hs. by injection Hhit. }
    rewrite Hsame in Habove. cbn in Habove. rewrite Heq in Habove.
    by apply Qlt_irrefl in Habove.
Qed.

Lemma findRelevantTools_strictly_above_threshold_witness :
  let q := SampleEnv.vec 1 0 in
  ∃ hits,
    Database.findRelevantTools SampleEnv.env "what's the weather in Boston" 3 0
      SampleEnv.ready = (Ok hits, SampleEnv.ready)
    ∧ Row.tool_id <$> stored SampleEnv.ready = ["get_weather"; "send_email"]
    ∧ Database.similarity SampleEnv.env q <$> stored SampleEnv.ready
      = [Float8.Num (1 - (1 - 1)); Float8.Num (1 - (1 - 0))]
    ∧ Hit.id <$> hits = ["get_weather"]
    ∧ Forall (λ h, ∃ s, Hit.similarity h = Float8.Num s ∧ (0 < s)%Q) hits
    ∧ Forall (λ r, ∀ s, Database.similarity SampleEnv.env q r = Float8.Num s →
                        (s == 0)%Q → hit_of SampleEnv.env q r ∉ hits)
        (stored SampleEnv.ready).
Proof.
  intros q.
  set (hits := hit_of SampleEnv.env q <$> take 1 (stored SampleEnv.ready)).
  assert (Hfind :
    Database.findRelevantTools SampleEnv.env "what's the weather in Boston" 3 0
      SampleEnv.ready = (Ok hits, SampleEnv.ready))
    by (vm_compute; reflexivity).
  destruct (findRelevantTools_strictly_above_threshold SampleEnv.env
              "what's the weather in Boston" 3 0 SampleEnv.ready q
              SampleEnv.ready hits SampleEnv.ready) as (_ & _ & Hnum & Hout).
  - vm_compute. reflexivity.
  - exact Hfind.
  - exists hits. split_and!.
    + exact Hfind.
    + reflexivity.
    + vm_compute. reflexivity.
    + reflexivity.
    + apply Hnum. repeat constructor; vm_compute; discriminate.
    + exact Hout.
Defined.

(** C2 as stated fails where a cosine distance is NaN: for a query vector
    of norm zero every stored row is a hit, with similarity NaN, which is
    no number above the threshold. *)
Lemma zero_norm_query_hits_carry_NaN :
  Database.findRelevantTools SampleEnv.env "hello" 3 (6 # 10) SampleEnv.ready
  = (Ok [Hit.mk "get_weather" Float8.NaN; Hit.mk "send_email" Float8.NaN],
     SampleEnv.ready)
  ∧ ¬ every_hit_exceeds_threshold SampleEnv.env.
Proof.
  assert (Hfind :
    Database.findRelevantTools SampleEnv.env "hello" 3 (6 # 10) SampleEnv.ready
    = (Ok [Hit.mk "get_weather" Float8.NaN; Hit.mk "send_email" Float8.NaN],
       SampleEnv.ready)) by (vm_compute; reflexivity).
  split; [exact Hfind|].
  intros Hclaim. apply Hclaim in Hfind.
  apply Forall_cons in Hfind as [(s & Hs & _) _]. discriminate Hs.
Qed.





(** ** What a call leaves untouched *)

Lemma with_embeddingModel_same w : with_embeddingModel (embeddingModel w) w = w.
Proof. by destruct w. Qed.

Lemma with_pool_same w : with_pool (pool w) w = w.
Proof. by destruct w. Qed.

Lemma initializeEmbeddingModel_frame env w r w' :
  Embedding.initializeEmbeddingModel env w = (r, w') →
  w' = with_embeddingModel (embeddingModel w') w.
Proof.
  unfold Embedding.initializeEmbeddingModel.
  destruct (embeddingModel w) eqn:Hm.
  - intros [= <- <-]. by rewrite with_embeddingModel_same.
  - destruct (FlagEmbedding_init env); intros [= <- <-]; [done|].
    by rewrite with_embeddingModel_same.
Qed.

Lemma generateEmbedding_frame env text w r w' :
  Embedding.generateEmbedding env text w = (r, w') →
  w' = with_embeddingModel (embeddingModel w') w.
Proof.
  unfold Embedding.generateEmbedding, mbind, M_bind, gets, mret, M_ret,
    throw, lift, Embedding.initializeEmbeddingModel.
  destruct (embeddingModel w) as [m|] eqn:Hm.
  - rewrite Hm.
    destruct (FlagEmbedding.embed m [text]) as [[|[|v ?] ?]|e];
      intros [= <- <-]; by rewrite with_embeddingModel_same.
  - rewrite Hm. destruct (FlagEmbedding_init env) as [m|e];
      [|intros [= <- <-]; by rewrite with_embeddingModel_same].
    cbn [embeddingModel with_embeddingModel].
    destruct (FlagEmbedding.embed m [text]) as [[|[|v ?] ?]|e];
      by intros [= <- <-].
Qed.

Lemma pool_query_read_frame {A} (statement : Pool.t → Res A * Pool.t) w r w' :
  (∀ db, (statement db).2 = db) →
  pool_query statement w = (r, w') → w' = w.
Proof.
  intros Hread. unfold pool_query.
  destruct (pool w) as [db|] eqn:Hpool; [|by intros [= <- <-]].
  destruct (Pool.failure db); [by intros [= <- <-]|].
  specialize (Hread db). destruct (statement db) as [[a|e] db'];
    cbn [snd] in Hread; subst db'; intros [= <- <-];
    by rewrite <-Hpool, with_pool_same.
Qed.

Lemma SELECT_relevant_reads env q threshold topK db :
  (Database.SELECT_relevant env q threshold topK db).2 = db.
Proof.
  unfold Database.SELECT_relevant.
  destruct (negb _); [done|]. by destruct (Sql.LIMIT _ _).
Qed.

Lemma findRelevantTools_frame env userPrompt topK threshold w r w' :
  Database.findRelevantTools env userPrompt topK threshold w = (r, w') →
  w' = with_embeddingModel (embeddingModel w') w.
Proof.
  unfold Database.findRelevantTools, mbind, M_bind.
  destruct (Embedding.generateEmbedding env userPrompt w) as [[q|e] w1] eqn:Hq;
    [|intros [= <- <-]; by eapply generateEmbedding_frame].
  apply generateEmbedding_frame in Hq.
  destruct (pool_query _ w1) as [[o|e] w2] eqn:Hquery;
    apply pool_query_read_frame in Hquery as ->;
    try apply SELECT_relevant_reads.
  - destruct o; intros [= <- <-]; exact Hq.
  - intros [= <- <-]; exact Hq.
Qed.

Lemma findRelevantTools_pastTools env userPrompt topK threshold w r w' :
  Database.findRelevantTools env userPrompt topK threshold w = (r, w') →
  pastTools w' = pastTools w
  ∧ toolRegistry w' = toolRegistry w
  ∧ pool w' = pool w.
Proof. intros ->%findRelevantTools_frame. done. Qed.

(** ** One turn *)

(** Unfolds the monad of asynchronous functions. *)
Ltac run :=
  repeat (progress (unfold mbind, M_bind, mret, M_ret, gets, modify, lift, throw;
                    cbv beta iota)).


Lemma turn_Ok env text w u w' :
  turn env text w = (Ok u, w') →
  ∃ hits w1,
    selection env text w = (Ok hits, w1)
    ∧ w' = with_pastTools
             (mergedTools (pastTools w1)
                (ToolRegistry.getMultiple (Hit.id <$> hits) (toolRegistry w1)))
             w1.
Proof.
  unfold selection, turn, Agent.handlePrompt, mbind, M_bind.
  destruct (Database.findRelevantTools _ _ _ _ w) as [[hits|e] w1];
    [|discriminate].
  unfold Agent.createDynamicAgent. run. cbn [pastTools with_pastTools].
  destruct (newAgent env _ _) as [agent|e]; [|discriminate].
  destruct (MastraAgent.generate agent text EntryPoint.userID);
    [|discriminate].
  intros [= <- <-]. by exists hits, w1.
Qed.

Lemma first_occurrences_app {A} `{EqDecision A} (l1 l2 : list A) :
  first_occurrences l1 `prefix_of` first_occurrences (l1 ++ l2).
Proof.
  induction l1 as [|x l1 [extra IH]].
  - by exists (first_occurrences l2).
  - cbn [app first_occurrences]. rewrite IH, filter_app.
    by exists (filter (λ y, y ≠ x) extra).
Qed.

Lemma mergedTools_extends previous incoming :
  NoDup (ToolDefinition.id <$> previous) →
  (ToolDefinition.id <$> previous)
    `prefix_of` (ToolDefinition.id <$> mergedTools previous incoming).
Proof.
  intros Hnd. rewrite mergedTools_ids, fmap_app.
  rewrite <-(first_occurrences_NoDup (ToolDefinition.id <$> previous)) at 1
    by done.
  apply first_occurrences_app.
Qed.

Lemma turn_NoDup env text w u w' :
  turn env text w = (Ok u, w') →
  NoDup (ToolDefinition.id <$> pastTools w').
Proof.
  intros (hits & w1 & _ & ->)%turn_Ok. cbn [pastTools with_pastTools].
  apply mergedTools_NoDup.
Qed.

Lemma turns_NoDup env texts w w' :
  NoDup (ToolDefinition.id <$> pastTools w) →
  forOf texts (turn env) w = (Ok (), w') →
  NoDup (ToolDefinition.id <$> pastTools w').
Proof.
  revert w. induction texts as [|text texts IH]; intros w Hnd.
  - by intros [= <-].
  - cbn [forOf]. unfold mbind, M_bind.
    destruct (turn env text w) as [[u|e] w1] eqn:Hturn; [|discriminate].
    apply IH. by eapply turn_NoDup.
Qed.

(** C6. In a session that starts with no tools, after any sequence of
    successful turns one more successful turn leaves at least as many
    tools: the ids held before the turn are still there, in the same
    order, at the front. *)
Theorem session_tools_never_shrink env texts text w0 wn wn1 :
  pastTools w0 = [] →
  forOf texts (turn env) w0 = (Ok (), wn) →
  turn env text wn = (Ok (), wn1) →
  (length (pastTools wn) ≤ length (pastTools wn1))%nat
  ∧ (ToolDefinition.id <$> pastTools wn)
      `prefix_of` (ToolDefinition.id <$> pastTools wn1).
Proof.
  intros Hstart Hturns Hturn.
  assert (Hnd : NoDup (ToolDefinition.id <$> pastTools wn)).
  { eapply turns_NoDup; [|exact Hturns]. rewrite Hstart. constructor. }
  assert (Hpre : (ToolDefinition.id <$> pastTools wn)
                   `prefix_of` (ToolDefinition.id <$> pastTools wn1)).
  { apply turn_Ok in Hturn as (hits & w1 & Hsel & ->).
    apply findRelevantTools_pastTools in Hsel as (-> & _ & _).
    cbn [pastTools with_pastTools]. by apply mergedTools_extends. }
  split; [|done].
  apply prefix_length in Hpre. by rewrite !length_fmap in Hpre.
Qed.

Lemma session_tools_never_shrink_witness :
  ∃ wn wn1,
    forOf ["what's the weather in Boston"] (turn SampleEnv.env) SampleEnv.ready
    = (Ok (), wn)
    ∧ turn SampleEnv.env "email john about the meeting" wn = (Ok (), wn1)
    ∧ pastTools wn = [Sample.A]
    ∧ pastTools wn1 = [Sample.A; Sample.B]
    ∧ (length (pastTools wn) ≤ length (pastTools wn1))%nat.
Proof.
  eexists _, _. split_and!.
  - vm_compute. reflexivity.
  - vm_compute. reflexivity.
  - reflexivity.
  - reflexivity.
  - eapply (session_tools_never_shrink SampleEnv.env
              ["what's the weather in Boston"] "email john about the meeting"
              SampleEnv.ready).
    + vm_compute. reflexivity.
    + vm_compute. reflexivity.
    + vm_compute. reflexivity.
Defined.

(** ** The prompt loop *)

Lemma is_query_spec text :
  is_query text = true ↔
  String.eqb (Js.toLowerCase (Js.trim text)) "exit" = false
  ∧ Js.truthy (Js.trim text) = true.
Proof.
  unfold is_query. rewrite andb_true_iff, negb_true_iff. done.
Qed.

Lemma promptLoop_query env text rest w :
  is_query text = true →
  EntryPoint.promptLoop env (text :: rest) w
  = match turn env text w with
    | (Ok _, w') =>
        let '(r, ts, w'') := EntryPoint.promptLoop env rest w' in
        (r, text :: ts, w'')
    | (Throw e, w') => (Throw e, [text], w')
    end.
Proof.
  intros [Hexit Htruthy]%is_query_spec.
  cbn [EntryPoint.promptLoop]. by rewrite Hexit, Htruthy.
Qed.





(** ** Registration in the database *)

Section Upsert.
Context (new : Row.t) (set : Row.t → Row.t).
Hypothesis set_keeps_tool_id : ∀ r, Row.tool_id (set r) = Row.tool_id r.

Lemma INSERT_ON_CONFLICT_tool_ids rows :
  Row.tool_id <$> Sql.INSERT_ON_CONFLICT_tool_id new set rows
  = if decide (Row.tool_id new ∈ Row.tool_id <$> rows)
    then Row.tool_id <$> rows
    else (Row.tool_id <$> rows) ++ [Row.tool_id new].
Proof.
  induction rows as [|r rows IH].
  - cbn. destruct (decide _) as [Hin|_]; [|done].
    by apply elem_of_nil in Hin.
  - cbn [Sql.INSERT_ON_CONFLICT_tool_id].
    destruct (decide (Row.tool_id r = Row.tool_id new)) as [Heq|Hne].
    + cbn [fmap list_fmap]. rewrite set_keeps_tool_id.
      rewrite decide_True; [done|]. rewrite Heq. left.
    + cbn [fmap list_fmap]. rewrite IH.
      destruct (decide (Row.tool_id new ∈ Row.tool_id <$> rows)) as [Hin|Hnin].
      * rewrite decide_True; [done | by right].
      * rewrite decide_False; [done|].
        intros [?|?]%elem_of_cons; congruence.
Qed.




Lemma INSERT_ON_CONFLICT_row rows r :
  NoDup (Row.tool_id <$> rows) →
  r ∈ Sql.INSERT_ON_CONFLICT_tool_id new set rows →
  Row.tool_id r = Row.tool_id new →
  r = new ∨ ∃ r0, r = set r0.
Proof.
  induction rows as [|r1 rows IH].
  - intros _ ->%list_elem_of_singleton _. by left.
  - intros [Hnin Hnd]%NoDup_cons. cbn [Sql.INSERT_ON_CONFLICT_tool_id].
    destruct (decide (Row.tool_id r1 = Row.tool_id new)) as [Heq|Hne].
    + intros [->|Hin]%elem_of_cons Hr; [right; by eexists|].
      destruct Hnin. rewrite Heq, <-Hr.
      apply list_elem_of_fmap. by exists r.
    + intros [->|Hin]%elem_of_cons Hr; [done|]. by apply IH.
Qed.
End Upsert.

Lemma filter_key_absent {A K} `{EqDecision K} (f : A → K) (k : K) (l : list A) :
  k ∉ f <$> l → filter (λ x, f x = k) l = [].
Proof.
  induction l as [|y l IH]; [done|].
  cbn [fmap list_fmap]. intros Hnin. rewrite filter_cons_False.
  - apply IH. intros ?. apply Hnin. by right.
  - intros <-. apply Hnin. left.
Qed.

Lemma filter_key_unique {A K} `{EqDecision K} (f : A → K) (k : K) (l : list A) :
  NoDup (f <$> l) → k ∈ f <$> l → ∃ x, filter (λ x, f x = k) l = [x].
Proof.
  induction l as [|y l IH]; [by intros _ ?%elem_of_nil|].
  cbn [fmap list_fmap]. intros [Hnin Hnd]%NoDup_cons Hin.
  destruct (decide (f y = k)) as [Hy|Hy].
  - exists y. rewrite filter_cons_True by done.
    rewrite filter_key_absent; [done | by rewrite <-Hy].
  - rewrite filter_cons_False by done.
    apply elem_of_cons in Hin as [?|Hin]; [done | by apply IH].
Qed.

Lemma generateEmbedding_again env text w q w1 w2 :
  Embedding.generateEmbedding env text w = (Ok q, w1) →
  embeddingModel w2 = embeddingModel w1 →
  Embedding.generateEmbedding env text w2 = (Ok q, w2).
Proof.
  unfold Embedding.generateEmbedding, Embedding.initializeEmbeddingModel. run.
  destruct (embeddingModel w) as [m|] eqn:Hm.
  - rewrite Hm.
    destruct (FlagEmbedding.embed m [text]) as [[|[|v ?] ?]|e] eqn:He;
      intros [= <- <-]. rewrite Hm. intros Hm2.
    rewrite Hm2. cbv beta iota. rewrite Hm2, He. done.
  - rewrite Hm. destruct (FlagEmbedding_init env) as [m|e]; [|discriminate].
    cbn [embeddingModel with_embeddingModel].
    destruct (FlagEmbedding.embed m [text]) as [[|[|v ?] ?]|e] eqn:He;
      intros [= <- <-]. intros Hm2.
    cbn [embeddingModel with_embeddingModel] in Hm2.
    rewrite Hm2. cbv beta iota. rewrite Hm2, He. done.
Qed.

Lemma UPSERT_tool_Ok tool q db :
  Database.accepted tool q = true →
  Database.UPSERT_tool tool q db = (Ok (), after_upsert tool q db)
  ∧ Pool.tool_embeddings (after_upsert tool q db)
    = Sql.INSERT_ON_CONFLICT_tool_id (Database.VALUES tool q db)
        (Database.DO_UPDATE_SET tool q) (Pool.tool_embeddings db)
  ∧ Pool.failure (after_upsert tool q db) = Pool.failure db.
Proof.
  intros Htyped. unfold after_upsert, Database.UPSERT_tool. cbv zeta.
  rewrite Htyped. done.
Qed.

Lemma registerToolInDatabase_Ok env tool w db u w' :
  pool w = Some db →
  Database.registerToolInDatabase env tool w = (Ok u, w') →
  ∃ q w1,
    Embedding.generateEmbedding env (Database.searchableText tool) w = (Ok q, w1)
    ∧ Pool.failure db = None
    ∧ Database.accepted tool q = true
    ∧ w' = with_pool (Some (after_upsert tool q db)) w1.
Proof.
  intros Hpool. unfold Database.registerToolInDatabase, mbind, M_bind.
  destruct (Embedding.generateEmbedding _ _ w) as [[q|e] w1] eqn:Hq;
    [|discriminate].
  pose proof (generateEmbedding_frame _ _ _ _ _ Hq) as Hw1.
  assert (Hpool1 : pool w1 = Some db) by (rewrite Hw1; exact Hpool).
  unfold pool_query. rewrite Hpool1.
  destruct (Pool.failure db); [discriminate|].
  destruct (Database.accepted tool q) eqn:Htyped.
  - destruct (UPSERT_tool_Ok tool q db Htyped) as (-> & _ & _).
    unfold mret, M_ret. destruct u. intros [= <-]. by exists q, w1.
  - unfold Database.UPSERT_tool. cbv zeta. rewrite Htyped. discriminate.
Qed.





(** ** The two copies of the selection *)

(** C9. [findRelevantTools] of main.ts and [findRelevantTools] of
    database.ts give the same answer (and leave the same state) for the
    same prompt, [topK] and threshold, with the same embedding model and
    the same stored rows. *)
Theorem findRelevantTools_copies_agree env userPrompt topK threshold w :
  Main.findRelevantTools env userPrompt topK threshold w
  = Database.findRelevantTools env userPrompt topK threshold w.
Proof.
  assert (Hselect : ∀ q db,
    Main.SELECT_relevant env q threshold topK db
    = Database.SELECT_relevant env q threshold topK db) by reflexivity.
  unfold Main.findRelevantTools, Database.findRelevantTools, mbind, M_bind.
  destruct (Embedding.generateEmbedding env userPrompt w) as [[q|e] w1];
    [|reflexivity].
  unfold pool_query. destruct (pool w1) as [db|]; [|reflexivity].
  destruct (Pool.failure db); [reflexivity|].
  by rewrite Hselect.
Qed.

(** ** Lines read by the prompt loop *)

(** The loop of the entry point: [exit] in any case, with blanks around
    it, ends the run with status 0; a blank line is skipped; any other line
    is one turn. *)
Lemma EntryPoint_promptLoop_line env text rest w :
  (Js.toLowerCase (Js.trim text) = "exit" →
   EntryPoint.promptLoop env (text :: rest) w = (Ok Break, [], w))
  ∧ (Js.trim text = "" →
     EntryPoint.promptLoop env (text :: rest) w
     = EntryPoint.promptLoop env rest w)
  ∧ (is_query text = true →
     EntryPoint.promptLoop env (text :: rest) w
     = match turn env text w with
       | (Ok _, w') =>
           let '(r, ts, w'') := EntryPoint.promptLoop env rest w' in
           (r, text :: ts, w'')
       | (Throw e, w') => (Throw e, [text], w')
       end).
Proof.
  split_and!.
  - intros Hexit. cbn [EntryPoint.promptLoop]. by rewrite Hexit.
  - intros Hblank. cbn [EntryPoint.promptLoop]. by rewrite Hblank.
  - apply promptLoop_query.
Qed.

Lemma EntryPoint_main_exit env text rest w0 :
  missing (DATABASE_URL env) = false →
  EntryPoint.startup env initialWorld = (Ok (), w0) →
  Js.toLowerCase (Js.trim text) = "exit" →
  EntryPoint.main env (text :: rest) = mkRun (Exit 0) [] w0.
Proof.
  intros Hurl Hstart Hexit. unfold EntryPoint.main.
  rewrite Hurl, Hstart. cbn [EntryPoint.promptLoop]. by rewrite Hexit.
Qed.

(** The loop of main.ts hands a blank line to [handlePrompt]. *)
Lemma Main_promptLoop_blank env text rest w :
  Js.trim text = "" →
  Main.promptLoop env (text :: rest) w
  = match Main.handlePrompt env Main.userID text w with
    | (Ok _, w') =>
        let '(r, ts, w'') := Main.promptLoop env rest w' in
        (r, text :: ts, w'')
    | (Throw e, w') => (Throw e, [text], w')
    end.
Proof. intros Hblank. cbn [Main.promptLoop]. by rewrite Hblank. Qed.

(** C8, at a blank line. The loop of main.ts treats the line of three
    spaces as a query and runs a turn for it; the loop of the entry point
    skips it. *)
Theorem Main_blank_line_is_a_turn :
  turns (Main.main SampleEnv.env ["   "; "exit"]) = ["   "]
  ∧ ending (Main.main SampleEnv.env ["   "; "exit"]) = Exit 0
  ∧ turns (EntryPoint.main SampleEnv.env ["   "; "exit"]) = []
  ∧ ending (EntryPoint.main SampleEnv.env ["   "; "exit"]) = Exit 0.
Proof. split_and!; vm_compute; reflexivity. Qed.

(** * Further properties of the code *)

(** ** The registry, as filled by [register] *)

Lemma registerAll_get (tools : list ToolDefinition.t) (reg : ToolRegistry.t)
    (i : string) :
  ToolRegistry.get i (ToolRegistry.registerAll tools reg)
  = match last_with_id i tools with
    | Some tool => Some tool
    | None => ToolRegistry.get i reg
    end.
Proof.
  unfold last_with_id. revert reg.
  induction tools as [|tool tools IH]; intros reg; [done|].
  cbn [ToolRegistry.registerAll foldl].
  fold (ToolRegistry.registerAll tools (ToolRegistry.register tool reg)).
  rewrite IH, filter_cons.
  unfold ToolRegistry.get at 1, ToolRegistry.register.
  cbn [ToolRegistry.tools]. rewrite lookup_insert.
  destruct (decide (ToolDefinition.id tool = i)) as [Hi|Hi].
  - rewrite last_cons. by destruct (last (filter _ tools)).
  - by destruct (last (filter _ tools)).
Qed.

Lemma registerAll_new_get (tools : list ToolDefinition.t) (i : string) :
  ToolRegistry.get i (ToolRegistry.registerAll tools ToolRegistry.new)
  = last_with_id i tools.
Proof.
  rewrite registerAll_get. destruct (last_with_id i tools); [done|].
  unfold ToolRegistry.get, ToolRegistry.new. cbn [ToolRegistry.tools].
  apply lookup_empty.
Qed.

Lemma registerAll_new_keys (tools : list ToolDefinition.t) (i : string)
    (t : ToolDefinition.t) :
  ToolRegistry.get i (ToolRegistry.registerAll tools ToolRegistry.new) = Some t →
  ToolDefinition.id t = i.
Proof.
  apply registerAll_keys. intros j t'.
  unfold ToolRegistry.get, ToolRegistry.new. cbn [ToolRegistry.tools].
  by rewrite lookup_empty.
Qed.

(** X1. After [register] has been called for the tools of a list, in
    order, [get] answers for an id with the last tool of the list that
    carries it, and as before when no tool of the list carries it: a later
    registration of an id replaces the earlier one and touches no other
    id. Starting from the empty registry, an id carried by no tool is
    unknown. *)
Theorem registry_last_registration_wins
    (tools : list ToolDefinition.t) (reg : ToolRegistry.t) (i : string) :
  ToolRegistry.get i (ToolRegistry.registerAll tools reg)
  = match last_with_id i tools with
    | Some tool => Some tool
    | None => ToolRegistry.get i reg
    end
  ∧ ToolRegistry.get i (ToolRegistry.registerAll tools ToolRegistry.new)
    = last_with_id i tools.
Proof. split; [apply registerAll_get | apply registerAll_new_get]. Qed.

Lemma registered_ids (tools : list ToolDefinition.t) (i : string) :
  is_Some (ToolRegistry.get i (ToolRegistry.registerAll tools ToolRegistry.new))
  ↔ i ∈ ToolDefinition.id <$> tools.
Proof.
  rewrite registerAll_new_get. unfold last_with_id. rewrite last_is_Some. split.
  - intros Hne. destruct (filter _ tools) as [|t l] eqn:Hf; [done|].
    assert (Ht : t ∈ filter (λ t, ToolDefinition.id t = i) tools)
      by (rewrite Hf; left).
    apply list_elem_of_filter in Ht as [<- Ht].
    apply list_elem_of_fmap. by exists t.
  - intros (t & -> & Ht)%list_elem_of_fmap Hnil.
    assert (Hin : t ∈ filter (λ t', ToolDefinition.id t' = ToolDefinition.id t) tools)
      by (by apply list_elem_of_filter).
    rewrite Hnil in Hin. by apply elem_of_nil in Hin.
Qed.

Lemma getMultiple_ids (tools : list ToolDefinition.t) (ids : list string) :
  ToolDefinition.id
    <$> ToolRegistry.getMultiple ids
          (ToolRegistry.registerAll tools ToolRegistry.new)
  = filter (λ i, i ∈ ToolDefinition.id <$> tools) ids.
Proof.
  set (reg := ToolRegistry.registerAll tools ToolRegistry.new).
  induction ids as [|i ids IH]; [done|].
  rewrite getMultiple_cons, filter_cons.
  destruct (ToolRegistry.get i reg) as [t|] eqn:Hi.
  - rewrite decide_True by (apply registered_ids; by eexists).
    cbn [fmap list_fmap]. rewrite IH. f_equal.
    by eapply registerAll_new_keys.
  - rewrite decide_False; [exact IH|].
    intros [t Ht]%registered_ids. fold reg in Ht. congruence.
Qed.

(** X2. [getMultiple] works id by id: the answer for two lists of ids put
    end to end is the two answers put end to end, and it is never longer
    than the list of ids. In a registry filled by [register], the ids of
    the answer are exactly the ids asked for that some registered tool
    carries, in the order asked. *)
Theorem getMultiple_by_id
    (tools : list ToolDefinition.t) (ids1 ids2 : list string) :
  let reg := ToolRegistry.registerAll tools ToolRegistry.new in
  ToolRegistry.getMultiple (ids1 ++ ids2) reg
  = ToolRegistry.getMultiple ids1 reg ++ ToolRegistry.getMultiple ids2 reg
  ∧ (length (ToolRegistry.getMultiple ids1 reg) ≤ length ids1)%nat
  ∧ ToolDefinition.id <$> ToolRegistry.getMultiple ids1 reg
    = filter (λ i, i ∈ ToolDefinition.id <$> tools) ids1.
Proof.
  intros reg. split_and!.
  - unfold ToolRegistry.getMultiple. by rewrite fmap_app, omap_app.
  - induction ids1 as [|i ids1 IH]; [done|].
    rewrite getMultiple_cons.
    destruct (ToolRegistry.get i reg); cbn [length]; lia.
  - apply getMultiple_ids.
Qed.

(** ** More on the JavaScript [Map] and the merge *)

Section MapMore.
Context {K V : Type} `{EqDecision K}.
Implicit Types (k : K) (v : V) (m es : list (K * V)).

Lemma Map_setAll_app m es1 es2 :
  Js.Map_setAll m (es1 ++ es2) = Js.Map_setAll (Js.Map_setAll m es1) es2.
Proof. unfold Js.Map_setAll. apply foldl_app. Qed.

Lemma Map_set_fresh k v m : k ∉ m.*1 → Js.Map_set k v m = m ++ [(k, v)].
Proof.
  induction m as [|[k' v'] m IH]; [done|].
  cbn [fmap list_fmap fst]. intros Hnin. cbn [Js.Map_set].
  rewrite decide_False by (intros ->; apply Hnin; left).
  rewrite IH; [done|]. intros ?. apply Hnin. by right.
Qed.

Lemma Map_setAll_fresh m es :
  NoDup (m ++ es).*1 → Js.Map_setAll m es = m ++ es.
Proof.
  revert m. induction es as [|[k v] es IH]; intros m Hnd.
  - by rewrite app_nil_r.
  - cbn [Js.Map_setAll foldl fst snd].
    fold (Js.Map_setAll (Js.Map_set k v m) es).
    rewrite Map_set_fresh.
    + rewrite IH; rewrite <-app_assoc; done.
    + rewrite fmap_app in Hnd. apply NoDup_app in Hnd as (_ & Hdisj & _).
      intros Hin. apply (Hdisj _ Hin). left.
Qed.

Lemma Map_ext m1 m2 :
  m1.*1 = m2.*1 → NoDup m1.*1 →
  (∀ k, Js.Map_get k m1 = Js.Map_get k m2) → m1 = m2.
Proof.
  revert m2. induction m1 as [|[k v] m1 IH]; intros [|[k' v'] m2];
    cbn [fmap list_fmap fst]; try done.
  intros [= <- Hkeys] [Hnin Hnd]%NoDup_cons Hget.
  assert (v = v') as <-.
  { specialize (Hget k). cbn [Js.Map_get] in Hget.
    rewrite !decide_True in Hget by done. by injection Hget. }
  f_equal. apply IH; [done..|].
  intros j. specialize (Hget j). cbn [Js.Map_get] in Hget.
  destruct (decide (j = k)) as [->|]; [|done].
  assert (Hnone : ∀ m, k ∉ m.*1 → Js.Map_get k m = None).
  { clear. intros m. induction m as [|[k0 v0] m IH]; [done|].
    cbn [fmap list_fmap fst Js.Map_get]. intros Hnin.
    rewrite decide_False by (intros ->; apply Hnin; left).
    apply IH. intros ?. apply Hnin. by right. }
  rewrite !Hnone; [done | by rewrite <-Hkeys | done].
Qed.

Lemma Map_new_ext es1 es2 :
  first_occurrences es1.*1 = first_occurrences es2.*1 →
  (∀ k, last (filter (λ e, e.1 = k) es1) = last (filter (λ e, e.1 = k) es2)) →
  Js.Map_new es1 = Js.Map_new es2.
Proof.
  intros Hkeys Hlast. apply Map_ext.
  - by rewrite !Map_new_keys.
  - rewrite Map_new_keys. apply NoDup_first_occurrences.
  - intros k. unfold Js.Map_new. by rewrite !Map_setAll_get, Hlast.
Qed.
End MapMore.

Lemma first_occurrences_absorb {A} `{EqDecision A} (l1 l2 : list A) :
  (∀ x, x ∈ l2 → x ∈ l1) →
  first_occurrences (l1 ++ l2) = first_occurrences l1.
Proof.
  induction l2 as [|x l2 IH]; intros Hsub.
  - by rewrite app_nil_r.
  - rewrite first_occurrences_repeat by (apply Hsub; left).
    apply IH. intros y Hy. apply Hsub. by right.
Qed.

Lemma last_app_r {A} (l1 l2 : list A) :
  l2 ≠ [] → last (l1 ++ l2) = last l2.
Proof.
  intros Hne. rewrite last_app. destruct (last l2) eqn:Hl; [done|].
  by apply last_None in Hl.
Qed.

Lemma mergedTools_Map previous incoming :
  mergedTools previous incoming
  = (Js.Map_new (entries (previous ++ incoming))).*2.
Proof. reflexivity. Qed.

Lemma entries_keys (l : list ToolDefinition.t) :
  (entries l).*1 = ToolDefinition.id <$> l.
Proof. unfold entries. by rewrite <-list_fmap_compose. Qed.

Lemma entries_values_Map (l : list ToolDefinition.t) :
  entries (Js.Map_new (entries l)).*2 = Js.Map_new (entries l).
Proof.
  unfold entries at 1. rewrite <-list_fmap_compose.
  rewrite <-(list_fmap_id (Js.Map_new (entries l))) at 2.
  apply list_fmap_ext. intros i [k t] He. cbn.
  f_equal. apply list_elem_of_lookup_2 in He.
  apply Map_setAll_entries in He as [He|He]; [by apply elem_of_nil in He|].
  apply list_elem_of_fmap in He as (t' & [= -> ->] & _). done.
Qed.

Lemma entries_last (l : list ToolDefinition.t) (k : string) :
  last (filter (λ e, e.1 = k) (entries l))
  = (λ t, (ToolDefinition.id t, t)) <$> last_with_id k l.
Proof. unfold entries, last_with_id. by rewrite filter_fmap, fmap_last. Qed.

Lemma mergedTools_again (a b c : list ToolDefinition.t) :
  mergedTools (mergedTools a b) c = mergedTools a (b ++ c).
Proof.
  rewrite !mergedTools_Map. f_equal.
  unfold entries at 1. rewrite fmap_app. fold (entries c).
  fold (entries (Js.Map_new (entries (a ++ b))).*2).
  rewrite entries_values_Map.
  unfold Js.Map_new at 1. rewrite Map_setAll_app.
  rewrite (Map_setAll_fresh [] (Js.Map_new (entries (a ++ b)))).
  - cbn [app]. unfold Js.Map_new.
    rewrite <-Map_setAll_app. unfold entries. by rewrite <-fmap_app, app_assoc.
  - cbn [app]. rewrite Map_new_keys. apply NoDup_first_occurrences.
Qed.

(** X3. Merging turn by turn is merging once: the tools obtained by
    merging [a] with [b] and the result with [c] are those obtained by
    merging [a] with [b] followed by [c]. *)
Theorem mergedTools_compose (a b c : list ToolDefinition.t) :
  mergedTools (mergedTools a b) c = mergedTools a (b ++ c).
Proof. apply mergedTools_again. Qed.

Lemma mergedTools_twice (previous incoming : list ToolDefinition.t) :
  mergedTools (mergedTools previous incoming) incoming
  = mergedTools previous incoming.
Proof.
  rewrite mergedTools_again, !mergedTools_Map. f_equal. apply Map_new_ext.
  - rewrite !entries_keys, app_assoc, fmap_app.
    apply first_occurrences_absorb.
    intros x Hx. rewrite fmap_app. apply elem_of_app. by right.
  - intros k. rewrite !entries_last. f_equal. unfold last_with_id.
    rewrite !filter_app.
    destruct (filter (λ t, ToolDefinition.id t = k) incoming) as [|t l] eqn:Hf.
    + by rewrite !app_nil_r.
    + rewrite app_assoc. by rewrite !last_app_r.
Qed.

(** X4. Merging the same incoming tools a second time changes nothing. *)
Theorem mergedTools_idempotent (previous incoming : list ToolDefinition.t) :
  mergedTools (mergedTools previous incoming) incoming
  = mergedTools previous incoming.
Proof. apply mergedTools_twice. Qed.

Lemma mergedTools_held (previous incoming : list ToolDefinition.t) :
  NoDup (ToolDefinition.id <$> previous) →
  (∀ t, t ∈ incoming → t ∈ previous) →
  mergedTools previous incoming = previous.
Proof.
  intros Hnd Hsub.
  assert (Hself : (Js.Map_new (entries previous)).*2 = previous).
  { unfold Js.Map_new. rewrite Map_setAll_fresh.
    - cbn [app]. unfold entries. rewrite <-list_fmap_compose.
      apply list_fmap_id.
    - cbn [app]. by rewrite entries_keys. }
  rewrite <-Hself at 2. rewrite mergedTools_Map. f_equal.
  apply Map_new_ext.
  - rewrite !entries_keys, fmap_app. apply first_occurrences_absorb.
    intros x (t & -> & Ht)%list_elem_of_fmap.
    apply list_elem_of_fmap. exists t. split; [done | by apply Hsub].
  - intros k. rewrite !entries_last. f_equal. unfold last_with_id.
    rewrite filter_app.
    destruct (filter (λ t, ToolDefinition.id t = k) incoming) as [|t l] eqn:Hf;
      [by rewrite app_nil_r|].
    destruct (filter_key_unique ToolDefinition.id k previous Hnd) as [x Hx].
    { assert (Ht : t ∈ filter (λ t, ToolDefinition.id t = k) incoming)
        by (rewrite Hf; left).
      apply list_elem_of_filter in Ht as [<- Ht].
      apply list_elem_of_fmap. exists t. split; [done | by apply Hsub]. }
    rewrite Hx. rewrite last_app_r by done. cbn [last].
    rewrite <-Hf.
    destruct (last (filter (λ t, ToolDefinition.id t = k) incoming)) as [y|] eqn:Hy.
    + f_equal. apply last_Some in Hy as [l' Hl'].
      assert (Hyin : y ∈ filter (λ t, ToolDefinition.id t = k) incoming)
        by (rewrite Hl'; apply elem_of_app; right; left).
      apply list_elem_of_filter in Hyin as [Hyk Hyin].
      assert (Hyp : y ∈ filter (λ t, ToolDefinition.id t = k) previous)
        by (apply list_elem_of_filter; split; [done | by apply Hsub]).
      rewrite Hx in Hyp. by apply list_elem_of_singleton in Hyp.
    + apply last_None in Hy. by rewrite Hf in Hy.
Qed.

(** X5. When the tools held have pairwise distinct ids and every incoming
    tool is already held, the merge gives back the tools held; in
    particular, merging with nothing changes nothing. *)
Theorem mergedTools_nothing_new (previous incoming : list ToolDefinition.t) :
  NoDup (ToolDefinition.id <$> previous) →
  (∀ t, t ∈ incoming → t ∈ previous) →
  mergedTools previous incoming = previous
  ∧ mergedTools previous [] = previous.
Proof.
  intros Hnd Hsub. split; [by apply mergedTools_held|].
  apply mergedTools_held; [done|]. by intros t ?%elem_of_nil.
Qed.

Lemma mergedTools_nothing_new_witness :
  mergedTools [Sample.A; Sample.B] [Sample.B; Sample.A; Sample.B]
  = [Sample.A; Sample.B]
  ∧ mergedTools [Sample.A; Sample.B] [] = [Sample.A; Sample.B].
Proof.
  apply (mergedTools_nothing_new [Sample.A; Sample.B]
           [Sample.B; Sample.A; Sample.B]).
  - apply (bool_decide_unpack _). vm_compute. exact I.
  - intros t Ht. apply (bool_decide_unpack _).
    apply elem_of_cons in Ht as [->|Ht]; [vm_compute; exact I|].
    apply elem_of_cons in Ht as [->|Ht]; [vm_compute; exact I|].
    apply list_elem_of_singleton in Ht as ->. vm_compute. exact I.
Defined.

(** ** More on one turn *)

(** The tools a turn hands to the agent, given the hits of its selection
    and the state the selection left. *)
Lemma turn_cases env text w :
  match selection env text w with
  | (Throw e, w1) => turn env text w = (Throw e, w1)
  | (Ok hits, w1) =>
      let merged :=
        mergedTools (pastTools w1)
          (ToolRegistry.getMultiple (Hit.id <$> hits) (toolRegistry w1)) in
      turn env text w
      = match newAgent env (config_agent env) merged with
        | Throw e => (Throw e, with_pastTools merged w1)
        | Ok agent =>
            match MastraAgent.generate agent text EntryPoint.userID with
            | Throw e => (Throw e, with_pastTools merged w1)
            | Ok _ => (Ok (), with_pastTools merged w1)
            end
        end
  end.
Proof.
  unfold selection, turn, Agent.handlePrompt, mbind, M_bind.
  destruct (Database.findRelevantTools _ _ _ _ w) as [[hits|e] w1]; [|done].
  unfold Agent.createDynamicAgent. run. cbn [pastTools with_pastTools].
  destruct (newAgent env _ _) as [agent|e]; [|done].
  by destruct (MastraAgent.generate agent text EntryPoint.userID).
Qed.

Lemma turn_frame env text w r w' :
  turn env text w = (r, w') →
  pool w' = pool w ∧ toolRegistry w' = toolRegistry w.
Proof.
  pose proof (turn_cases env text w) as Hcases.
  destruct (selection env text w) as [[hits|e] w1] eqn:Hsel;
    apply findRelevantTools_pastTools in Hsel as (_ & Hreg & Hpool).
  - cbv zeta in Hcases. rewrite Hcases.
    destruct (newAgent env _ _) as [agent|?];
      [destruct (MastraAgent.generate agent text EntryPoint.userID)|];
      by intros [= <- <-].
  - rewrite Hcases. by intros [= <- <-].
Qed.

Lemma turns_frame env texts w r w' :
  forOf texts (turn env) w = (r, w') →
  pool w' = pool w ∧ toolRegistry w' = toolRegistry w.
Proof.
  revert w. induction texts as [|text texts IH]; intros w.
  - by intros [= <- <-].
  - cbn [forOf]. unfold mbind, M_bind.
    destruct (turn env text w) as [[u|e] w1] eqn:Hturn;
      apply turn_frame in Hturn as [Hpool Hreg].
    + intros [Hp Hr]%IH. by rewrite Hp, Hr.
    + by intros [= <- <-].
Qed.

(** X6. The tools are replaced before the agent is built: when the
    selection succeeds but the agent cannot be created, or its reply
    fails, the turn fails and the session nevertheless holds the merged
    tools. *)
Theorem turn_agent_failure_keeps_merged_tools env text w hits w1 e :
  selection env text w = (Ok hits, w1) →
  let merged :=
    mergedTools (pastTools w)
      (ToolRegistry.getMultiple (Hit.id <$> hits) (toolRegistry w)) in
  (newAgent env (config_agent env) merged = Throw e
   ∨ ∃ agent, newAgent env (config_agent env) merged = Ok agent
              ∧ MastraAgent.generate agent text EntryPoint.userID = Throw e) →
  ∃ w', turn env text w = (Throw e, w') ∧ pastTools w' = merged.
Proof.
  intros Hsel merged Hfail.
  pose proof (turn_cases env text w) as Hcases. rewrite Hsel in Hcases.
  apply findRelevantTools_pastTools in Hsel as (Hpast & Hreg & _).
  cbv zeta in Hcases. rewrite Hpast, Hreg in Hcases. fold merged in Hcases.
  exists (with_pastTools merged w1). split; [|done].
  rewrite Hcases. destruct Hfail as [->|(agent & -> & ->)]; done.
Qed.

Lemma turn_agent_failure_keeps_merged_tools_witness :
  let w := (EntryPoint.startup SampleFaults.agent_down initialWorld).2 in
  pastTools w = []
  ∧ ∃ w', turn SampleFaults.agent_down "what's the weather in Boston" w
          = (Throw "agent unavailable", w')
          ∧ pastTools w' = [Sample.A].
Proof.
  intros w. split; [reflexivity|].
  destruct (turn_agent_failure_keeps_merged_tools SampleFaults.agent_down
              "what's the weather in Boston" w
              [Hit.mk "get_weather" (Float8.Num (1 - (1 - 1)))] w "agent unavailable")
    as (w' & Hturn & Hpast).
  - vm_compute. reflexivity.
  - left. reflexivity.
  - exists w'. split; [exact Hturn|]. rewrite Hpast. reflexivity.
Defined.

Lemma length_first_occurrences_le {A} `{EqDecision A} (l : list A) :
  (length (first_occurrences l) ≤ length l)%nat.
Proof.
  induction l as [|x l IH]; [done|].
  cbn [first_occurrences length].
  pose proof (length_filter (λ y, y ≠ x) (first_occurrences l)). lia.
Qed.

Lemma length_mergedTools_le previous incoming :
  (length (mergedTools previous incoming)
   ≤ length previous + length incoming)%nat.
Proof.
  rewrite <-(length_fmap ToolDefinition.id), mergedTools_ids.
  etransitivity; [apply length_first_occurrences_le|].
  by rewrite length_fmap, length_app.
Qed.

Lemma length_getMultiple_le ids reg :
  (length (ToolRegistry.getMultiple ids reg) ≤ length ids)%nat.
Proof.
  induction ids as [|i ids IH]; [done|].
  rewrite getMultiple_cons.
  destruct (ToolRegistry.get i reg); cbn [length]; lia.
Qed.

(** X7. A successful turn adds at most [topK] tools to the session, where
    [topK] is the configured default. *)
Theorem turn_adds_at_most_topK env text w w' :
  turn env text w = (Ok (), w') →
  (Z.of_nat (length (pastTools w'))
   ≤ Z.of_nat (length (pastTools w)) + Config.defaultTopK (config_search env))%Z.
Proof.
  intros (hits & w1 & Hsel & ->)%turn_Ok. cbn [pastTools with_pastTools].
  pose proof (findRelevantTools_pastTools _ _ _ _ _ _ _ Hsel) as (-> & _ & _).
  apply findRelevantTools_Ok in Hsel
    as (q & wa & db & _ & _ & _ & Hk & ->).
  pose proof (length_mergedTools_le (pastTools w)
    (ToolRegistry.getMultiple
       (Hit.id <$> (hit_of env q
          <$> take (Z.to_nat (Config.defaultTopK (config_search env)))
                (Sql.ORDER_BY (λ r, cosine_distance env (Row.embedding r) q)
                   (passing env q
                      (Config.defaultSimilarityThreshold (config_search env))
                      (Pool.tool_embeddings db)))))
       (toolRegistry w1))) as Hmerge.
  pose proof (length_getMultiple_le
    (Hit.id <$> (hit_of env q
          <$> take (Z.to_nat (Config.defaultTopK (config_search env)))
                (Sql.ORDER_BY (λ r, cosine_distance env (Row.embedding r) q)
                   (passing env q
                      (Config.defaultSimilarityThreshold (config_search env))
                      (Pool.tool_embeddings db)))))
    (toolRegistry w1)) as Hget.
  rewrite !length_fmap, length_take in Hget. lia.
Qed.

Lemma turn_adds_at_most_topK_witness :
  ∃ w',
    turn SampleEnv.env "weather or email" SampleEnv.ready = (Ok (), w')
    ∧ pastTools SampleEnv.ready = []
    ∧ pastTools w' = [Sample.A; Sample.B]
    ∧ (Z.of_nat (length (pastTools w')) ≤ 0 + 3)%Z.
Proof.
  eexists. split_and!; cycle 3.
  - eapply (turn_adds_at_most_topK SampleEnv.env "weather or email"
              SampleEnv.ready).
    vm_compute. reflexivity.
  - vm_compute. reflexivity.
  - reflexivity.
  - reflexivity.
Defined.

Lemma mergedTools_elements previous incoming t :
  t ∈ mergedTools previous incoming → t ∈ previous ∨ t ∈ incoming.
Proof.
  intros Hlast%mergedTools_last. unfold last_with_id in Hlast.
  apply last_Some in Hlast as [l Hl].
  assert (Hin : t ∈ filter (λ t', ToolDefinition.id t' = ToolDefinition.id t)
                      (previous ++ incoming))
    by (rewrite Hl; apply elem_of_app; right; left).
  apply list_elem_of_filter in Hin as [_ Hin]. by apply elem_of_app in Hin.
Qed.

Lemma getMultiple_elements ids reg t :
  t ∈ ToolRegistry.getMultiple ids reg →
  ∃ i, i ∈ ids ∧ ToolRegistry.get i reg = Some t.
Proof.
  induction ids as [|i ids IH]; [by intros ?%elem_of_nil|].
  rewrite getMultiple_cons.
  destruct (ToolRegistry.get i reg) as [t'|] eqn:Hi.
  - intros [->|Hin]%elem_of_cons.
    + exists i. split; [left | done].
    + destruct (IH Hin) as (j & Hj & Hget). exists j. split; [by right | done].
  - intros Hin. destruct (IH Hin) as (j & Hj & Hget).
    exists j. split; [by right | done].
Qed.

Lemma merged_held_from reg w hits :
  (∀ i t, ToolRegistry.get i reg = Some t → ToolDefinition.id t = i) →
  held_from reg w →
  held_from reg
    (with_pastTools
       (mergedTools (pastTools w)
          (ToolRegistry.getMultiple (Hit.id <$> hits) (toolRegistry w)))
       w).
Proof.
  intros Hkeys (Hreg & Hall & Hnd). split_and!.
  - done.
  - cbn [pastTools with_pastTools]. apply Forall_forall.
    intros t [Ht|Ht]%mergedTools_elements.
    + by eapply Forall_forall in Hall.
    + apply getMultiple_elements in Ht as (i & _ & Hget).
      rewrite Hreg in Hget. by rewrite (Hkeys _ _ Hget).
  - cbn [pastTools with_pastTools]. apply mergedTools_NoDup.
Qed.

Lemma turn_held_from env reg text w r w' :
  (∀ i t, ToolRegistry.get i reg = Some t → ToolDefinition.id t = i) →
  held_from reg w → turn env text w = (r, w') → held_from reg w'.
Proof.
  intros Hkeys Hheld.
  pose proof (turn_cases env text w) as Hcases.
  destruct (selection env text w) as [[hits|e] w1] eqn:Hsel;
    apply findRelevantTools_pastTools in Hsel as (Hpast & Hreg & _).
  - assert (Hheld1 : held_from reg w1).
    { destruct Hheld as (? & ? & ?). unfold held_from.
      by rewrite Hpast, Hreg. }
    pose proof (merged_held_from reg w1 hits Hkeys Hheld1) as Hmerged.
    cbv zeta in Hcases. rewrite Hcases.
    destruct (newAgent env _ _) as [agent|?];
      [destruct (MastraAgent.generate agent text EntryPoint.userID)|];
      by intros [= <- <-].
  - rewrite Hcases. intros [= <- <-].
    destruct Hheld as (? & ? & ?). unfold held_from. by rewrite Hpast, Hreg.
Qed.

Lemma turns_held_from env reg texts w r w' :
  (∀ i t, ToolRegistry.get i reg = Some t → ToolDefinition.id t = i) →
  held_from reg w → forOf texts (turn env) w = (r, w') → held_from reg w'.
Proof.
  intros Hkeys. revert w. induction texts as [|text texts IH]; intros w Hheld.
  - by intros [= <- <-].
  - cbn [forOf]. unfold mbind, M_bind.
    destruct (turn env text w) as [[u|e] w1] eqn:Hturn;
      apply (turn_held_from _ _ _ _ _ _ Hkeys Hheld) in Hturn.
    + by apply IH.
    + by intros [= <- <-].
Qed.

(** X8. In a session that starts with no tools, over a registry filled by
    [register], whatever the turns and however they end, every tool held is
    the registry's tool for its id, no id is held twice, and the session
    never holds more tools than there are distinct ids registered. *)
Theorem session_tools_come_from_registry env tools texts w0 r w :
  toolRegistry w0 = ToolRegistry.registerAll tools ToolRegistry.new →
  pastTools w0 = [] →
  forOf texts (turn env) w0 = (r, w) →
  Forall (λ t, ToolRegistry.get (ToolDefinition.id t) (toolRegistry w) = Some t)
    (pastTools w)
  ∧ NoDup (ToolDefinition.id <$> pastTools w)
  ∧ (length (pastTools w)
     ≤ length (remove_dups (ToolDefinition.id <$> tools)))%nat.
Proof.
  intros Hreg Hstart Hturns.
  set (reg := ToolRegistry.registerAll tools ToolRegistry.new) in *.
  assert (Hheld : held_from reg w).
  { eapply turns_held_from; [|..|exact Hturns].
    - apply registerAll_new_keys.
    - split_and!; rewrite ?Hstart; [done | constructor | constructor]. }
  destruct Hheld as (Hregw & Hall & Hnd). rewrite Hregw.
  split_and!; [done..|].
  rewrite <-(length_fmap ToolDefinition.id).
  apply submseteq_length, NoDup_submseteq; [done|].
  intros i (t & -> & Ht)%list_elem_of_fmap.
  apply elem_of_remove_dups, registered_ids.
  eapply Forall_forall in Hall; [|exact Ht]. by eexists.
Qed.

Lemma session_tools_come_from_registry_witness :
  ∃ w,
    forOf ["weather or email"; "no batch"; "email john about the meeting"]
      (turn SampleEnv.env) SampleEnv.ready
    = (Throw "Failed to generate embedding", w)
    ∧ pastTools w = [Sample.A; Sample.B]
    ∧ (length (pastTools w) ≤ 2)%nat.
Proof.
  eexists. split_and!; cycle 2.
  - eapply (session_tools_come_from_registry SampleEnv.env
              [Sample.A; Sample.B]
              ["weather or email"; "no batch"; "email john about the meeting"]
              SampleEnv.ready).
    + reflexivity.
    + reflexivity.
    + vm_compute. reflexivity.
  - vm_compute. reflexivity.
  - reflexivity.
Defined.

Lemma findRelevantTools_again env userPrompt topK threshold w hits wa wb :
  Database.findRelevantTools env userPrompt topK threshold w = (Ok hits, wa) →
  embeddingModel wb = embeddingModel wa →
  pool wb = pool wa →
  Database.findRelevantTools env userPrompt topK threshold wb = (Ok hits, wb).
Proof.
  intros Hfind Hmodel Hpool.
  destruct (findRelevantTools_Ok _ _ _ _ _ _ _ Hfind)
    as (q & w1 & db & Hq & Hpool1 & -> & Hk & _).
  revert Hfind. unfold Database.findRelevantTools, mbind, M_bind.
  rewrite Hq, (generateEmbedding_again _ _ _ _ _ wb Hq) by done.
  unfold pool_query. cbn [pool with_pool] in Hpool.
  rewrite Hpool, Hpool1.
  destruct (Pool.failure db); [discriminate|].
  destruct (Database.SELECT_relevant _ _ _ _ db) as [[rows|e] db'] eqn:Hsel;
    [|discriminate].
  pose proof (SELECT_relevant_reads env q threshold topK db) as Hdb.
  rewrite Hsel in Hdb. cbn [snd] in Hdb. subst db'.
  unfold mret, M_ret. intros [= <-]. do 2 f_equal.
  rewrite <-Hpool. apply with_pool_same.
Qed.

(** X9. Asking the same thing again changes nothing: after a successful
    turn, a second turn with the same text, whether it succeeds or fails,
    leaves the session with the same tools. *)
Theorem turn_repeated_keeps_tools env text w w1 r w2 :
  turn env text w = (Ok (), w1) →
  turn env text w1 = (r, w2) →
  pastTools w2 = pastTools w1.
Proof.
  intros (hits & wa & Hsel & ->)%turn_Ok.
  pose proof (turn_cases env text
    (with_pastTools
       (mergedTools (pastTools wa)
          (ToolRegistry.getMultiple (Hit.id <$> hits) (toolRegistry wa)))
       wa)) as Hcases.
  unfold selection in Hcases, Hsel.
  rewrite (findRelevantTools_again _ _ _ _ _ _ _ _ Hsel) in Hcases by done.
  cbv zeta in Hcases. cbn [pastTools toolRegistry with_pastTools] in Hcases.
  rewrite mergedTools_twice in Hcases. rewrite Hcases.
  cbn [pastTools with_pastTools].
  destruct (newAgent env _ _) as [agent|?];
    [destruct (MastraAgent.generate agent text EntryPoint.userID)|];
    by intros [= <- <-].
Qed.

Lemma turn_repeated_keeps_tools_witness :
  ∃ w1 w2,
    turn SampleEnv.env "weather or email" SampleEnv.ready = (Ok (), w1)
    ∧ turn SampleEnv.env "weather or email" w1 = (Ok (), w2)
    ∧ pastTools w1 = [Sample.A; Sample.B]
    ∧ pastTools w2 = pastTools w1.
Proof.
  eexists _, _. split_and!; cycle 3.
  - eapply (turn_repeated_keeps_tools SampleEnv.env "weather or email"
              SampleEnv.ready).
    + vm_compute. reflexivity.
    + vm_compute. reflexivity.
  - vm_compute. reflexivity.
  - vm_compute. reflexivity.
  - reflexivity.
Defined.

(** ** The embedding model *)

(** X10. The embedding model is initialised at most once and only when
    needed. With a model in place, [generateEmbedding] leaves the state as
    it is and does not depend on what [FlagEmbedding.init] would give.
    Without one, a failing initialisation is rethrown and leaves the model
    unset, so the next call tries again; a successful one installs the
    model it gave, whatever becomes of the embedding itself. *)
Theorem generateEmbedding_initialises_lazily env text w :
  (∀ m, embeddingModel w = Some m →
        (Embedding.generateEmbedding env text w).2 = w
        ∧ ∀ env', Embedding.generateEmbedding env' text w
                  = Embedding.generateEmbedding env text w)
  ∧ (∀ e, embeddingModel w = None → FlagEmbedding_init env = Throw e →
          Embedding.generateEmbedding env text w = (Throw e, w))
  ∧ (∀ m, embeddingModel w = None → FlagEmbedding_init env = Ok m →
          (Embedding.generateEmbedding env text w).2
          = with_embeddingModel (Some m) w).
Proof.
  unfold Embedding.generateEmbedding, Embedding.initializeEmbeddingModel.
  run. split_and!.
  - intros m Hm. rewrite Hm. cbv beta iota. rewrite Hm. split.
    + by destruct (FlagEmbedding.embed m [text]) as [[|[|v ?] ?]|e].
    + intros env'. done.
  - intros e Hm He. rewrite Hm. cbv beta iota. by rewrite Hm, He.
  - intros m Hm Hinit. rewrite Hm. cbv beta iota. rewrite Hm, Hinit.
    cbn [embeddingModel with_embeddingModel].
    by destruct (FlagEmbedding.embed m [text]) as [[|[|v ?] ?]|e].
Qed.

Lemma generateEmbedding_initialises_lazily_witness :
  (Embedding.generateEmbedding SampleEnv.env "on the line" SampleEnv.ready).2
  = SampleEnv.ready
  ∧ Embedding.generateEmbedding SampleFaults.no_model "on the line"
      SampleEnv.ready
    = Embedding.generateEmbedding SampleEnv.env "on the line" SampleEnv.ready
  ∧ Embedding.generateEmbedding SampleFaults.no_model "on the line" initialWorld
    = (Throw "model download failed", initialWorld)
  ∧ (Embedding.generateEmbedding SampleEnv.env "no batch" initialWorld).2
    = with_embeddingModel (Some SampleEnv.model) initialWorld.
Proof.
  destruct (generateEmbedding_initialises_lazily SampleEnv.env "on the line"
              SampleEnv.ready) as (Hset & _ & _).
  destruct (Hset SampleEnv.model) as [Hsame Hany]; [reflexivity|].
  destruct (generateEmbedding_initialises_lazily SampleFaults.no_model
              "on the line" initialWorld) as (_ & Hfail & _).
  destruct (generateEmbedding_initialises_lazily SampleEnv.env
              "no batch" initialWorld) as (_ & _ & Hinit).
  split_and!.
  - exact Hsame.
  - apply Hany.
  - apply Hfail; reflexivity.
  - apply Hinit; reflexivity.
Defined.

(** X11. [generateEmbeddingsBatch] and [generateEmbedding] agree where
    both succeed: for a single text, the first vector of the batch answer
    is the vector of the single answer, and both leave the same state. They
    part where the model yields nothing: the single call throws, the batch
    call answers with the empty list. *)
Theorem generateEmbeddingsBatch_agrees_with_single env text w :
  (∀ vs w1 v w2,
     Embedding.generateEmbeddingsBatch env [text] w = (Ok vs, w1) →
     Embedding.generateEmbedding env text w = (Ok v, w2) →
     head vs = Some v ∧ w1 = w2)
  ∧ (∀ m, embeddingModel w = Some m → FlagEmbedding.embed m [text] = Ok [] →
          Embedding.generateEmbeddingsBatch env [text] w = (Ok [], w)
          ∧ Embedding.generateEmbedding env text w
            = (Throw "Failed to generate embedding", w)).
Proof.
  unfold Embedding.generateEmbeddingsBatch, Embedding.generateEmbedding,
    Embedding.initializeEmbeddingModel.
  run. split.
  - intros vs w1 v w2. destruct (embeddingModel w) as [m|] eqn:Hm.
    + rewrite Hm.
      destruct (FlagEmbedding.embed m [text]) as [[|[|v' ?] ?]|e];
        intros [= <- <-]; [discriminate..|intros [= <- <-]; done].
    + rewrite Hm. destruct (FlagEmbedding_init env) as [m|e]; [|discriminate].
      cbn [embeddingModel with_embeddingModel].
      destruct (FlagEmbedding.embed m [text]) as [[|[|v' ?] ?]|e];
        intros [= <- <-]; [discriminate..|intros [= <- <-]; done].
  - intros m Hm Hempty. rewrite Hm. cbv beta iota. by rewrite Hm, Hempty.
Qed.

Lemma generateEmbeddingsBatch_agrees_with_single_witness :
  Embedding.generateEmbeddingsBatch SampleEnv.env ["on the line"] SampleEnv.ready
  = (Ok [SampleEnv.vec (6 # 10) (8 # 10)], SampleEnv.ready)
  ∧ head [SampleEnv.vec (6 # 10) (8 # 10)] = Some (SampleEnv.vec (6 # 10) (8 # 10))
  ∧ Embedding.generateEmbeddingsBatch SampleEnv.env ["no batch"] SampleEnv.ready
    = (Ok [], SampleEnv.ready)
  ∧ Embedding.generateEmbedding SampleEnv.env "no batch" SampleEnv.ready
    = (Throw "Failed to generate embedding", SampleEnv.ready).
Proof.
  destruct (generateEmbeddingsBatch_agrees_with_single SampleEnv.env
              "on the line" SampleEnv.ready) as [Hagree _].
  destruct (generateEmbeddingsBatch_agrees_with_single SampleEnv.env
              "no batch" SampleEnv.ready) as [_ Hpart].
  destruct (Hagree [SampleEnv.vec (6 # 10) (8 # 10)] SampleEnv.ready
              (SampleEnv.vec (6 # 10) (8 # 10)) SampleEnv.ready)
    as [Hhead _]; [vm_compute; reflexivity..|].
  destruct (Hpart SampleEnv.model) as [Hbatch Hsingle]; [reflexivity..|].
  split_and!; [vm_compute; reflexivity | exact Hhead | exact Hbatch | exact Hsingle].
Defined.

(** ** The pool *)

(** X12. [initDatabase] creates the pool only when there is none: called
    with a pool in place it keeps that pool and its rows, whether the call
    succeeds or fails. Called without one, it installs the pool before it
    connects, so that a failed connection leaves a pool behind and
    [getPool] no longer refuses. *)
Theorem initDatabase_keeps_existing_pool env w :
  (∀ db, pool w = Some db → (Database.initDatabase env w).2 = w)
  ∧ (∀ e, pool w = None → connect env = Throw e →
          Database.initDatabase env w
          = (Throw e, with_pool (Some (server env)) w)
          ∧ Database.getPool w
            = (Throw "Database not initialized. Call initDatabase() first.", w)
          ∧ Database.getPool (with_pool (Some (server env)) w)
            = (Ok (server env), with_pool (Some (server env)) w)).
Proof.
  unfold Database.initDatabase, Database.getPool, pool_query. run. split.
  - intros db Hpool. rewrite Hpool. cbv beta iota.
    destruct (connect env) as [[]|e]; [|done]. cbv beta iota.
    rewrite Hpool. destruct (Pool.failure db); [done|]. cbv beta iota.
    cbn [pool with_pool]. destruct (Pool.failure db); cbn [snd];
      by rewrite <-Hpool, ?with_pool_same.
  - intros e Hpool Hconnect. rewrite Hpool. cbv beta iota.
    rewrite Hconnect. done.
Qed.

Lemma initDatabase_keeps_existing_pool_witness :
  (Database.initDatabase SampleFaults.unreachable SampleEnv.ready).2
  = SampleEnv.ready
  ∧ Database.initDatabase SampleFaults.unreachable initialWorld
    = (Throw "connect ECONNREFUSED",
       with_pool (Some (Pool.mk [] 1 1000 None)) initialWorld)
  ∧ Database.getPool (with_pool (Some (Pool.mk [] 1 1000 None)) initialWorld)
    = (Ok (Pool.mk [] 1 1000 None),
       with_pool (Some (Pool.mk [] 1 1000 None)) initialWorld).
Proof.
  destruct (initDatabase_keeps_existing_pool SampleFaults.unreachable
              SampleEnv.ready) as [Hkeep _].
  destruct (initDatabase_keeps_existing_pool SampleFaults.unreachable
              initialWorld) as [_ Hfail].
  destruct (Hfail "connect ECONNREFUSED") as (H1 & _ & H3); [reflexivity..|].
  split_and!; [|exact H1|exact H3].
  eapply Hkeep. vm_compute. reflexivity.
Defined.

Lemma closeDatabase_spec w :
  Database.closeDatabase w = (Ok (), with_pool None w).
Proof.
  unfold Database.closeDatabase. run.
  destruct (pool w) eqn:Hpool; [done|].
  by rewrite <-Hpool, with_pool_same.
Qed.

(** X13. Once [closeDatabase] has run (or before [initDatabase] ever did),
    there is no pool: [getPool] refuses; a selection whose prompt is
    embedded throws a TypeError instead of answering with no hits; and a
    registration whose text is embedded reports success although nothing
    is stored. Closing again changes nothing. *)
Theorem without_pool env w :
  let w0 := (Database.closeDatabase w).2 in
  pool w0 = None
  ∧ Database.closeDatabase w0 = (Ok (), w0)
  ∧ Database.getPool w0
    = (Throw "Database not initialized. Call initDatabase() first.", w0)
  ∧ (∀ text topK threshold q w1,
       Embedding.generateEmbedding env text w0 = (Ok q, w1) →
       Database.findRelevantTools env text topK threshold w0
       = (Throw "TypeError: Cannot read properties of undefined (reading 'rows')",
          w1))
  ∧ (∀ tool q w1,
       Embedding.generateEmbedding env (Database.searchableText tool) w0
       = (Ok q, w1) →
       Database.registerToolInDatabase env tool w0 = (Ok (), w1)
       ∧ stored w1 = []).
Proof.
  intros w0. subst w0. rewrite closeDatabase_spec. cbn [snd].
  split_and!.
  - done.
  - by rewrite closeDatabase_spec.
  - done.
  - intros text topK threshold q w1 Hq.
    unfold Database.findRelevantTools, mbind, M_bind. rewrite Hq.
    apply generateEmbedding_frame in Hq.
    unfold pool_query. by rewrite Hq.
  - intros tool q w1 Hq.
    unfold Database.registerToolInDatabase, mbind, M_bind. rewrite Hq.
    apply generateEmbedding_frame in Hq.
    unfold pool_query, stored. by rewrite Hq.
Qed.

Lemma without_pool_witness :
  let w0 := (Database.closeDatabase SampleEnv.ready).2 in
  stored SampleEnv.ready ≠ []
  ∧ Database.findRelevantTools SampleEnv.env "weather or email" 3 (6 # 10) w0
    = (Throw "TypeError: Cannot read properties of undefined (reading 'rows')",
       w0)
  ∧ Database.registerToolInDatabase SampleEnv.env Sample.C w0 = (Ok (), w0)
  ∧ stored w0 = [].
Proof.
  intros w0.
  destruct (without_pool SampleEnv.env SampleEnv.ready)
    as (_ & _ & _ & Hfind & Hreg).
  fold w0 in Hfind, Hreg.
  destruct (Hreg Sample.C (SampleEnv.vec 0 0) w0) as [H1 H2];
    [vm_compute; reflexivity|].
  split_and!; [discriminate | | exact H1 | exact H2].
  apply (Hfind _ _ _ (SampleEnv.vec (21 # 29) (20 # 29)) w0).
  vm_compute. reflexivity.
Defined.

(** ** The selection, further *)



Lemma hits_submseteq env userPrompt topK threshold w hits w' :
  Database.findRelevantTools env userPrompt topK threshold w = (Ok hits, w') →
  Hit.id <$> hits ⊆+ Row.tool_id <$> stored w.
Proof.
  intros Hfind.
  pose proof (findRelevantTools_pastTools _ _ _ _ _ _ _ Hfind) as (_ & _ & Hpool).
  destruct (findRelevantTools_Ok _ _ _ _ _ _ _ Hfind)
    as (q & w1 & db & Hq & Hpool1 & -> & _ & ->).
  cbn [pool with_pool] in Hpool.
  rewrite <-list_fmap_compose. unfold stored. rewrite <-Hpool.
  change (Hit.id ∘ hit_of env q) with Row.tool_id.
  apply fmap_submseteq.
  etransitivity; [apply sublist_submseteq, sublist_take|].
  rewrite ORDER_BY_distance_perm.
  apply sublist_submseteq, sublist_filter.
Qed.

(** X15. Each stored row gives at most one hit: the ids of the hits of a
    selection are ids of stored rows, counted with multiplicity; with
    [tool_id] unique in the table, no id comes twice among the hits, so
    the ids handed to [getMultiple] are pairwise distinct. *)
Theorem hits_are_distinct_stored_ids env userPrompt topK threshold w hits w' :
  Database.findRelevantTools env userPrompt topK threshold w = (Ok hits, w') →
  Hit.id <$> hits ⊆+ Row.tool_id <$> stored w
  ∧ (NoDup (Row.tool_id <$> stored w) → NoDup (Hit.id <$> hits)).
Proof.
  intros Hsub%hits_submseteq. split; [exact Hsub|].
  intros Hnd. apply submseteq_Permutation in Hsub as [k Hk].
  rewrite Hk in Hnd. by apply NoDup_app in Hnd as (? & _ & _).
Qed.

Lemma hits_are_distinct_stored_ids_witness :
  ∃ hits,
    (Database.findRelevantTools SampleEnv.env "weather or email" 3 (6 # 10)
       SampleEnv.ready).1 = Ok hits
    ∧ Hit.id <$> hits = ["get_weather"; "send_email"]
    ∧ Row.tool_id <$> stored SampleEnv.ready = ["get_weather"; "send_email"]
    ∧ NoDup (Hit.id <$> hits).
Proof.
  eexists. split_and!; cycle 3.
  - eapply (hits_are_distinct_stored_ids SampleEnv.env "weather or email" 3
              (6 # 10) SampleEnv.ready).
    + vm_compute. reflexivity.
    + apply (bool_decide_unpack _). vm_compute. exact I.
  - vm_compute. reflexivity.
  - reflexivity.
  - reflexivity.
Defined.

(** X16. A selection only reads: however it ends, the stored rows, the
    registry and the tools of the session are as before; the one thing it
    may change is to install the embedding model when there was none. *)
Theorem findRelevantTools_only_reads env userPrompt topK threshold w r w' :
  Database.findRelevantTools env userPrompt topK threshold w = (r, w') →
  pool w' = pool w
  ∧ stored w' = stored w
  ∧ toolRegistry w' = toolRegistry w
  ∧ pastTools w' = pastTools w
  ∧ (is_Some (embeddingModel w) → w' = w).
Proof.
  intros Hfind.
  pose proof (findRelevantTools_frame _ _ _ _ _ _ _ Hfind) as Hframe.
  rewrite Hframe. unfold stored. split_and!; try done.
  intros [m Hm]. rewrite <-Hframe.
  revert Hfind. unfold Database.findRelevantTools, mbind, M_bind.
  destruct (Embedding.generateEmbedding env userPrompt w) as [[q|e] w1] eqn:Hq.
  - assert (w1 = w) as ->.
    { revert Hq. unfold Embedding.generateEmbedding. run. rewrite Hm.
      cbv beta iota. rewrite Hm.
      by destruct (FlagEmbedding.embed m [userPrompt]) as [[|[|v ?] ?]|e];
        intros [= <-]. }
    destruct (pool_query _ w) as [[o|e] w2] eqn:Hquery;
      apply pool_query_read_frame in Hquery as ->;
      try apply SELECT_relevant_reads.
    + by destruct o; intros [= <- <-].
    + by intros [= <- <-].
  - intros [= <- <-]. revert Hq. unfold Embedding.generateEmbedding. run.
    rewrite Hm. cbv beta iota. rewrite Hm.
    by destruct (FlagEmbedding.embed m [userPrompt]) as [[|[|v ?] ?]|e'];
      intros [= <-].
Qed.

Lemma findRelevantTools_only_reads_witness :
  (Database.findRelevantTools SampleEnv.env "weather or email" 3 (6 # 10)
     SampleEnv.ready).2 = SampleEnv.ready
  ∧ (Database.findRelevantTools SampleEnv.env "no batch" 3 (6 # 10)
       SampleEnv.ready).2 = SampleEnv.ready.
Proof.
  split.
  - eapply (findRelevantTools_only_reads SampleEnv.env "weather or email" 3
              (6 # 10) SampleEnv.ready).
    + apply surjective_pairing.
    + by eexists.
  - eapply (findRelevantTools_only_reads SampleEnv.env "no batch" 3
              (6 # 10) SampleEnv.ready).
    + apply surjective_pairing.
    + by eexists.
Defined.

(** ** Registration, further *)

Section UpsertMore.
Context (new : Row.t) (set : Row.t → Row.t).
Hypothesis set_keeps_tool_id : ∀ r, Row.tool_id (set r) = Row.tool_id r.

Lemma INSERT_ON_CONFLICT_others rows :
  filter (λ r, Row.tool_id r ≠ Row.tool_id new)
    (Sql.INSERT_ON_CONFLICT_tool_id new set rows)
  = filter (λ r, Row.tool_id r ≠ Row.tool_id new) rows.
Proof.
  induction rows as [|r rows IH].
  - cbn [Sql.INSERT_ON_CONFLICT_tool_id]. by rewrite filter_cons_False by naive_solver.
  - cbn [Sql.INSERT_ON_CONFLICT_tool_id].
    destruct (decide (Row.tool_id r = Row.tool_id new)) as [Heq|Hne].
    + rewrite !filter_cons_False; [done|naive_solver|].
      rewrite set_keeps_tool_id. naive_solver.
    + rewrite !filter_cons_True by done. by rewrite IH.
Qed.

Lemma INSERT_ON_CONFLICT_kept {B} (f : Row.t → B) rows :
  (∀ r, f (set r) = f r) →
  f <$> take (length rows) (Sql.INSERT_ON_CONFLICT_tool_id new set rows)
  = f <$> rows.
Proof.
  intros Hf. induction rows as [|r rows IH]; [done|].
  cbn [Sql.INSERT_ON_CONFLICT_tool_id length].
  destruct (decide (Row.tool_id r = Row.tool_id new)) as [Heq|Hne];
    cbn [take fmap list_fmap].
  - by rewrite Hf, take_ge.
  - by rewrite IH.
Qed.

Lemma INSERT_ON_CONFLICT_length rows :
  length (Sql.INSERT_ON_CONFLICT_tool_id new set rows)
  = if decide (Row.tool_id new ∈ Row.tool_id <$> rows)
    then length rows else S (length rows).
Proof.
  rewrite <-(length_fmap Row.tool_id), INSERT_ON_CONFLICT_tool_ids by done.
  case_decide; rewrite ?length_app, !length_fmap; cbn [length]; lia.
Qed.
End UpsertMore.

(** X17. A successful registration touches one row only. The rows of
    other tool ids are as before, in the same order. A tool id that was
    not stored is added as a last row; a tool id that was stored keeps its
    place and the table its length. The tool id is taken as the
    [tool_id] column holds it. *)
Theorem registration_touches_one_row env tool w db w' :
  pool w = Some db →
  Database.registerToolInDatabase env tool w = (Ok (), w') →
  filter (λ r, Row.tool_id r ≠ Database.stored_id tool) (stored w')
  = filter (λ r, Row.tool_id r ≠ Database.stored_id tool) (stored w)
  ∧ Row.tool_id <$> stored w'
    = (if decide (Database.stored_id tool ∈ Row.tool_id <$> stored w)
       then Row.tool_id <$> stored w
       else (Row.tool_id <$> stored w) ++ [Database.stored_id tool])
  ∧ length (stored w')
    = (if decide (Database.stored_id tool ∈ Row.tool_id <$> stored w)
       then length (stored w) else S (length (stored w))).
Proof.
  intros Hpool Hreg.
  destruct (registerToolInDatabase_Ok _ _ _ _ _ _ Hpool Hreg)
    as (q & wa & Hq & Hfail & Htyped & ->).
  destruct (UPSERT_tool_Ok tool q db Htyped) as (_ & Hrows & _).
  unfold stored. cbn [pool with_pool]. rewrite Hpool, Hrows.
  split_and!.
  - by apply (INSERT_ON_CONFLICT_others (Database.VALUES tool q db)).
  - by apply (INSERT_ON_CONFLICT_tool_ids (Database.VALUES tool q db)).
  - by apply (INSERT_ON_CONFLICT_length (Database.VALUES tool q db)).
Qed.

Lemma registration_touches_one_row_witness :
  let w1 := (Database.registerToolInDatabase SampleEnv.env Sample.B'
               SampleEnv.ready).2 in
  let w2 := (Database.registerToolInDatabase SampleEnv.env Sample.C w1).2 in
  Row.tool_id <$> stored w1 = ["get_weather"; "send_email"]
  ∧ Row.tool_id <$> stored w2 = ["get_weather"; "send_email"; "create_task"]
  ∧ filter (λ r, Row.tool_id r ≠ "create_task") (stored w2)
    = filter (λ r, Row.tool_id r ≠ "create_task") (stored w1).
Proof.
  intros w1 w2.
  destruct (registration_touches_one_row SampleEnv.env Sample.C w1
              (Pool.mk (stored w1) 4 1000 None) w2) as (Hothers & _ & _).
  - vm_compute. reflexivity.
  - vm_compute. reflexivity.
  - split_and!; [reflexivity | reflexivity | exact Hothers].
Defined.

Lemma left_excess (n : nat) (s : string) :
  (Sql.left n s ++ Sql.excess n s)%string = s.
Proof.
  revert s. induction n as [|n IH]; intros [|c s]; try reflexivity.
  cbn [Sql.left Sql.excess].
  change (String c (Sql.left n s ++ Sql.excess n s)%string = String c s).
  by rewrite IH.
Qed.

Lemma length_left (n : nat) (s : string) :
  String.length (Sql.left n s) = Nat.min n (String.length s).
Proof.
  revert s. induction n as [|n IH]; intros [|c s]; cbn; [done..|].
  by rewrite IH.
Qed.

Lemma left_short (n : nat) (s : string) :
  (String.length s ≤ n)%nat → Sql.left n s = s.
Proof.
  revert s. induction n as [|n IH]; intros [|c s]; cbn; [done|lia|done|].
  intros Hlen. rewrite IH; [done|lia].
Qed.

Lemma accepted_fits tool q :
  Database.accepted tool q = true →
  Sql.fits 255 (ToolDefinition.id tool) = true
  ∧ Sql.fits 255 (ToolDefinition.name tool) = true
  ∧ length q = DIMENSIONS.
Proof.
  unfold Database.accepted.
  intros [[Hid Hname]%andb_true_iff Hdim%Nat.eqb_eq]%andb_true_iff. done.
Qed.

(** X18. Registering a tool id that is already stored rewrites its row in
    place: every row that was there keeps its serial [id], its [tool_id]
    and its [created_at], and, with [tool_id] unique in the table, the row
    of the tool carries the tool's description, keywords, parameters and
    definition afterwards, and as [tool_name] the tool's name as a
    [VARCHAR(255)] column holds it: the name itself when it has at most 255
    characters; when it is longer, its first 255 characters, the rest
    being spaces, for the registration fails otherwise. The definition
    keeps the name in full. *)
Theorem registration_updates_in_place env tool w db w' :
  pool w = Some db →
  NoDup (Row.tool_id <$> stored w) →
  Database.registerToolInDatabase env tool w = (Ok (), w') →
  (λ r, (Row.id r, Row.tool_id r, Row.created_at r))
    <$> take (length (stored w)) (stored w')
  = (λ r, (Row.id r, Row.tool_id r, Row.created_at r)) <$> stored w
  ∧ Forall (λ r, Row.tool_id r = Database.stored_id tool →
                 Row.tool_name r = Database.stored_name tool
                 ∧ Row.description r = ToolDefinition.description tool
                 ∧ Row.keywords r = ToolDefinition.keywords tool
                 ∧ Row.parameters r = ToolDefinition.parameters tool
                 ∧ Row.tool_definition r = Database.snapshot tool)
      (stored w')
  ∧ ((String.length (ToolDefinition.name tool) ≤ 255)%nat →
     Database.stored_name tool = ToolDefinition.name tool)
  ∧ ((255 < String.length (ToolDefinition.name tool))%nat →
     String.length (Database.stored_name tool) = 255%nat
     ∧ ToolDefinition.name tool
       = (Database.stored_name tool
          ++ Sql.excess 255 (ToolDefinition.name tool))%string
     ∧ Sql.spaces (Sql.excess 255 (ToolDefinition.name tool)) = true).
Proof.
  intros Hpool Hnd Hreg.
  destruct (registerToolInDatabase_Ok _ _ _ _ _ _ Hpool Hreg)
    as (q & wa & Hq & Hfail & Htyped & ->).
  destruct (UPSERT_tool_Ok tool q db Htyped) as (_ & Hrows & _).
  apply accepted_fits in Htyped as (_ & Hname & _).
  unfold stored in *. cbn [pool with_pool]. rewrite Hpool in *. rewrite Hrows.
  split_and!.
  - by apply (INSERT_ON_CONFLICT_kept (Database.VALUES tool q db)).
  - apply Forall_forall. intros r Hr Hid.
    destruct (INSERT_ON_CONFLICT_row (Database.VALUES tool q db)
                (Database.DO_UPDATE_SET tool q))
      with (rows := Pool.tool_embeddings db) (r := r) as [->|[r0 ->]]; done.
  - apply left_short.
  - intros Hlong. unfold Database.stored_name. split_and!.
    + rewrite length_left. lia.
    + by rewrite left_excess.
    + exact Hname.
Qed.

Lemma registration_updates_in_place_witness :
  let w1 := (Database.registerToolInDatabase SampleEnv.env Sample.B'
               SampleEnv.ready).2 in
  let w2 := (Database.registerToolInDatabase SampleEnv.env Sample.padded
               SampleEnv.ready).2 in
  (λ r, (Row.id r, Row.tool_id r, Row.created_at r)) <$> stored w1
  = [(1, "get_weather", 1000); (2, "send_email", 1000)]
  ∧ Row.description <$> stored SampleEnv.ready
    = ["Current weather for a city"; "Send an email"]
  ∧ Row.description <$> stored w1
    = ["Current weather for a city"; "Send an email to a recipient"]
  ∧ String.length (ToolDefinition.name Sample.padded) = 256%nat
  ∧ Database.registerToolInDatabase SampleEnv.env Sample.padded SampleEnv.ready
    = (Ok (), w2)
  ∧ String.length <$> (Row.tool_name <$> stored w2) = [11; 255]%nat.
Proof.
  intros w1 w2.
  destruct (registration_updates_in_place SampleEnv.env Sample.B'
              SampleEnv.ready (Pool.mk (stored SampleEnv.ready) 3 1000 None) w1)
    as (Hkept & _ & _ & _).
  - vm_compute. reflexivity.
  - apply (bool_decide_unpack _). vm_compute. exact I.
  - vm_compute. reflexivity.
  - split_and!; [|reflexivity| reflexivity| reflexivity | vm_compute; reflexivity
                 | vm_compute; reflexivity].
    etransitivity; [|etransitivity; [exact Hkept|]]; reflexivity.
Defined.

(** X19. A registration that fails, for whatever reason (the text is not
    embedded, the store fails, a value does not fit its column), leaves the
    table exactly as it was. *)
Theorem failed_registration_leaves_table env tool w e w' :
  Database.registerToolInDatabase env tool w = (Throw e, w') →
  stored w' = stored w
  ∧ toolRegistry w' = toolRegistry w
  ∧ pastTools w' = pastTools w.
Proof.
  unfold Database.registerToolInDatabase, mbind, M_bind.
  destruct (Embedding.generateEmbedding _ _ w) as [[q|e0] w1] eqn:Hq;
    apply generateEmbedding_frame in Hq.
  2: { intros [= <- <-]. by rewrite Hq. }
  unfold pool_query, stored.
  destruct (pool w1) as [db|] eqn:Hpool; [|discriminate].
  destruct (Pool.failure db).
  { intros [= <- <-]. by rewrite Hq. }
  unfold Database.UPSERT_tool. cbv zeta.
  destruct (Database.accepted _ _); [discriminate|].
  intros [= <- <-]. cbn [pool with_pool toolRegistry pastTools].
  rewrite Hq in Hpool |- *. cbn [pool with_embeddingModel] in Hpool.
  by rewrite Hpool.
Qed.

Lemma failed_registration_leaves_table_witness :
  ∃ w',
    Database.registerToolInDatabase SampleEnv.env SampleFaults.unembeddable
      SampleEnv.ready
    = (Throw "Failed to generate embedding", w')
    ∧ stored w' = stored SampleEnv.ready.
Proof.
  eexists. split.
  - vm_compute. reflexivity.
  - eapply (failed_registration_leaves_table SampleEnv.env
              SampleFaults.unembeddable SampleEnv.ready).
    vm_compute. reflexivity.
Defined.

(** ** The tool service *)

Lemma registerToolInDatabase_frame env tool w r w' :
  Database.registerToolInDatabase env tool w = (r, w') →
  toolRegistry w' = toolRegistry w ∧ pastTools w' = pastTools w.
Proof.
  unfold Database.registerToolInDatabase, mbind, M_bind.
  destruct (Embedding.generateEmbedding _ _ w) as [[q|e0] w1] eqn:Hq;
    apply generateEmbedding_frame in Hq.
  2: { intros [= <- <-]. by rewrite Hq. }
  unfold pool_query.
  destruct (pool w1) as [db|].
  2: { unfold mret, M_ret. intros [= <- <-]. by rewrite Hq. }
  destruct (Pool.failure db).
  { intros [= <- <-]. by rewrite Hq. }
  destruct (Database.UPSERT_tool tool q db) as [[u|e] db'];
    unfold mret, M_ret; intros [= <- <-]; by rewrite Hq.
Qed.

Lemma registerTool_frame env tool w r w' :
  ToolService.registerTool env tool w = (r, w') →
  toolRegistry w' = ToolRegistry.register tool (toolRegistry w)
  ∧ pastTools w' = pastTools w.
Proof.
  unfold ToolService.registerTool. run.
  by intros [-> ->]%registerToolInDatabase_frame.
Qed.

Lemma registerTool_Throw env tool w e w' :
  ToolService.registerTool env tool w = (Throw e, w') →
  stored w' = stored w.
Proof.
  unfold ToolService.registerTool. run.
  unfold Database.registerToolInDatabase, mbind, M_bind.
  destruct (Embedding.generateEmbedding _ _ _) as [[q|e0] w1] eqn:Hq;
    apply generateEmbedding_frame in Hq.
  2: { intros [= <- <-]. by rewrite Hq. }
  unfold pool_query, stored.
  destruct (pool w1) as [db|] eqn:Hpool; [|discriminate].
  destruct (Pool.failure db).
  { intros [= <- <-]. by rewrite Hq. }
  unfold Database.UPSERT_tool. cbv zeta.
  destruct (Database.accepted _ _); [discriminate|].
  intros [= <- <-]. cbn [pool with_pool].
  rewrite Hq in Hpool. cbn [pool with_embeddingModel with_toolRegistry] in Hpool.
  by rewrite Hpool.
Qed.

(** X20. [registerTool] of the tool service writes the registry first:
    however the database registration ends, the tool is in the registry
    afterwards; when it fails, the table is as before, so that the
    registry then knows a tool the table does not. *)
Theorem registerTool_registry_first env tool w r w' :
  ToolService.registerTool env tool w = (r, w') →
  ToolService.getTool (ToolDefinition.id tool) w' = (Ok (Some tool), w')
  ∧ (∀ e, r = Throw e → stored w' = stored w).
Proof.
  intros Hreg. split.
  - apply registerTool_frame in Hreg as [Hregistry _].
    unfold ToolService.getTool, gets. rewrite Hregistry.
    unfold ToolRegistry.get, ToolRegistry.register. cbn [ToolRegistry.tools].
    by rewrite lookup_insert_eq.
  - intros e ->. by eapply registerTool_Throw.
Qed.

Lemma registerTool_registry_first_witness :
  let w' := (ToolService.registerTool SampleEnv.env SampleFaults.unembeddable
               SampleEnv.ready).2 in
  ToolService.registerTool SampleEnv.env SampleFaults.unembeddable
    SampleEnv.ready
  = (Throw "Failed to generate embedding", w')
  ∧ ToolService.getTool "odd" w' = (Ok (Some SampleFaults.unembeddable), w')
  ∧ stored w' = stored SampleEnv.ready
  ∧ Row.tool_id <$> stored SampleEnv.ready = ["get_weather"; "send_email"].
Proof.
  intros w'.
  destruct (registerTool_registry_first SampleEnv.env SampleFaults.unembeddable
              SampleEnv.ready (Throw "Failed to generate embedding") w')
    as [Hget Hstored].
  - vm_compute. reflexivity.
  - split_and!.
    + vm_compute. reflexivity.
    + exact Hget.
    + exact (Hstored _ eq_refl).
    + reflexivity.
Defined.

Lemma upserted_cons (present : list string) (i : string) (ids : list string) :
  upserted (if decide (i ∈ present) then present else present ++ [i]) ids
  = upserted present (i :: ids).
Proof.
  unfold upserted. cbn [first_occurrences]. rewrite filter_cons.
  destruct (decide (i ∈ present)) as [Hin|Hnin].
  - rewrite decide_False by tauto. f_equal.
    rewrite list_filter_filter. apply list_filter_iff.
    intros j. split; [|tauto]. intros Hj. split; [done|]. by intros ->.
  - rewrite decide_True by done. rewrite <-app_assoc. cbn [app]. do 2 f_equal.
    rewrite list_filter_filter. apply list_filter_iff.
    intros j. rewrite elem_of_app, list_elem_of_singleton. tauto.
Qed.

Lemma elem_of_upserted (present ids : list string) (i : string) :
  i ∈ upserted present ids ↔ i ∈ present ∨ i ∈ ids.
Proof.
  unfold upserted.
  rewrite elem_of_app, list_elem_of_filter, elem_of_first_occurrences.
  destruct (decide (i ∈ present)); tauto.
Qed.

Lemma filter_all {A} (P : A → Prop) `{∀ x, Decision (P x)} (l : list A) :
  Forall P l → filter P l = l.
Proof.
  induction 1 as [|x l Hx _ IH]; [done|].
  by rewrite filter_cons_True, IH.
Qed.

Lemma registerToolInDatabase_ids env tool w db u w' :
  pool w = Some db →
  Database.registerToolInDatabase env tool w = (Ok u, w') →
  is_Some (pool w')
  ∧ Row.tool_id <$> stored w'
    = if decide (Database.stored_id tool ∈ Row.tool_id <$> stored w)
      then Row.tool_id <$> stored w
      else (Row.tool_id <$> stored w) ++ [Database.stored_id tool].
Proof.
  intros Hpool Hreg.
  destruct (registerToolInDatabase_Ok _ _ _ _ _ _ Hpool Hreg)
    as (q & w1 & _ & _ & Htyped & ->).
  destruct (UPSERT_tool_Ok tool q db Htyped) as (_ & Hrows & _).
  unfold stored. cbn [pool with_pool]. rewrite Hpool, Hrows. split; [done|].
  by rewrite INSERT_ON_CONFLICT_tool_ids.
Qed.

Lemma registerTools_frame env tools w r w' :
  forOf tools (ToolService.registerTool env) w = (r, w') →
  pastTools w' = pastTools w.
Proof.
  revert w. induction tools as [|tool tools IH]; intros w.
  - by intros [= <- <-].
  - cbn [forOf]. unfold mbind, M_bind.
    destruct (ToolService.registerTool env tool w) as [[u|e] w1] eqn:Hreg;
      apply registerTool_frame in Hreg as [_ Hpast].
    + intros ->%IH. done.
    + by intros [= <- <-].
Qed.

Lemma registerTools_Ok env tools w db u w' :
  pool w = Some db →
  forOf tools (ToolService.registerTool env) w = (Ok u, w') →
  is_Some (pool w')
  ∧ toolRegistry w' = ToolRegistry.registerAll tools (toolRegistry w)
  ∧ Row.tool_id <$> stored w'
    = upserted (Row.tool_id <$> stored w) (Database.stored_id <$> tools).
Proof.
  revert w db. induction tools as [|tool tools IH]; intros w db Hpool.
  - cbn [forOf]. run. intros Hw. assert (w' = w) as -> by congruence.
    rewrite Hpool. split_and!; [done..|].
    unfold upserted. cbn [fmap list_fmap first_occurrences].
    by rewrite filter_nil, app_nil_r.
  - cbn [forOf]. unfold mbind, M_bind.
    destruct (ToolService.registerTool env tool w) as [[[]|e] w1] eqn:Hreg;
      [|discriminate].
    pose proof (registerTool_frame _ _ _ _ _ Hreg) as [Hregistry _].
    unfold ToolService.registerTool in Hreg. revert Hreg. run. intros Hreg.
    eapply registerToolInDatabase_ids in Hreg as [[db1 Hpool1] Hids];
      [|exact Hpool].
    intros Htools. destruct (IH _ _ Hpool1 Htools) as (Hsome & Hreg' & Hids').
    split_and!; [done | by rewrite Hreg', Hregistry |].
    rewrite Hids', Hids. cbn [fmap list_fmap]. apply upserted_cons.
Qed.

(** The loop [for (const x of xs) await body(x)] fails at the first [x]
    whose body fails. *)
Lemma forOf_Throw {A} (body : A → M unit) xs w e w' :
  forOf xs body w = (Throw e, w') →
  ∃ before x after wb,
    xs = before ++ x :: after
    ∧ forOf before body w = (Ok (), wb)
    ∧ body x wb = (Throw e, w').
Proof.
  revert w. induction xs as [|x xs IH]; intros w; [discriminate|].
  cbn [forOf]. unfold mbind, M_bind.
  destruct (body x w) as [[[]|e1] w1] eqn:Hbody.
  - intros (before & y & after & wb & -> & Hbefore & Hy)%IH.
    exists (x :: before), y, after, wb. split_and!; [done| |done].
    cbn [forOf]. unfold mbind, M_bind. by rewrite Hbody.
  - intros [= <- <-]. by exists [], x, xs, w.
Qed.

Lemma setupAllTools_Ok env w db u w' :
  pool w = Some db →
  ToolService.setupAllTools env w = (Ok u, w') →
  toolRegistry w'
  = ToolRegistry.registerAll (demoTools env) (toolRegistry w)
  ∧ Row.tool_id <$> stored w'
    = upserted (Row.tool_id <$> stored w) (Database.stored_id <$> demoTools env)
  ∧ pastTools w' = pastTools w.
Proof.
  unfold ToolService.setupAllTools. intros Hpool Hsetup.
  pose proof (registerTools_frame _ _ _ _ _ Hsetup) as Hpast.
  by destruct (registerTools_Ok _ _ _ _ _ _ Hpool Hsetup) as (_ & Hreg & Hids).
Qed.

(** X21. When [setupAllTools] succeeds on a state with a pool, the
    registry is the one obtained by registering the demo tools in order;
    the table keeps the ids it had, in place, followed by the new ids in
    the order in which they were first registered; every demo tool is in
    the table and in the registry; the tools of the session are
    untouched. *)
Theorem setupAllTools_registers_and_stores env w db u w' :
  pool w = Some db →
  ToolService.setupAllTools env w = (Ok u, w') →
  toolRegistry w'
  = ToolRegistry.registerAll (demoTools env) (toolRegistry w)
  ∧ Row.tool_id <$> stored w'
    = upserted (Row.tool_id <$> stored w) (Database.stored_id <$> demoTools env)
  ∧ (∀ tool, tool ∈ demoTools env →
       Database.stored_id tool ∈ Row.tool_id <$> stored w'
       ∧ is_Some (ToolRegistry.get (ToolDefinition.id tool) (toolRegistry w')))
  ∧ pastTools w' = pastTools w.
Proof.
  intros Hpool Hsetup.
  destruct (setupAllTools_Ok _ _ _ _ _ Hpool Hsetup) as (Hreg & Hids & Hpast).
  split_and!; [done..| |done].
  intros tool Htool. split.
  - rewrite Hids. apply elem_of_upserted. right.
    apply list_elem_of_fmap. by exists tool.
  - rewrite Hreg, registerAll_get.
    destruct (last_with_id (ToolDefinition.id tool) (demoTools env)) eqn:Hlast;
      [done|].
    unfold last_with_id in Hlast. apply last_None in Hlast.
    assert (Hin : tool ∈ filter (λ t, ToolDefinition.id t = ToolDefinition.id tool)
                           (demoTools env)) by (by apply list_elem_of_filter).
    rewrite Hlast in Hin. by apply elem_of_nil in Hin.
Qed.

Lemma setupAllTools_registers_and_stores_witness :
  let w := (Database.initDatabase SampleEnv.env initialWorld).2 in
  let w' := (ToolService.setupAllTools SampleEnv.env w).2 in
  stored w = []
  ∧ Row.tool_id <$> stored w' = ["get_weather"; "send_email"]
  ∧ ToolRegistry.get "send_email" (toolRegistry w') = Some Sample.B.
Proof.
  intros w w'.
  destruct (setupAllTools_registers_and_stores SampleEnv.env w
              (Pool.mk [] 1 1000 None) () w')
    as (Hreg & Hids & _ & _); [reflexivity | vm_compute; reflexivity |].
  split_and!; [reflexivity | rewrite Hids; reflexivity | rewrite Hreg; reflexivity].
Defined.

(** X22. [setupAllTools] stops at the first tool whose registration
    fails. That tool and the tools before it are in the registry; only the
    tools before it are in the table; the tools after it are not handled
    at all. *)
Theorem setupAllTools_stops_at_first_failure env w db e w' :
  pool w = Some db →
  ToolService.setupAllTools env w = (Throw e, w') →
  ∃ before tool after,
    demoTools env = before ++ tool :: after
    ∧ toolRegistry w'
      = ToolRegistry.registerAll (before ++ [tool]) (toolRegistry w)
    ∧ Row.tool_id <$> stored w'
      = upserted (Row.tool_id <$> stored w) (Database.stored_id <$> before).
Proof.
  unfold ToolService.setupAllTools.
  intros Hpool (before & tool & after & wb & Htools & Hbefore & Htool)%forOf_Throw.
  exists before, tool, after.
  destruct (registerTools_Ok _ _ _ _ _ _ Hpool Hbefore) as (_ & Hreg & Hids).
  pose proof (registerTool_frame _ _ _ _ _ Htool) as [Hreg' _].
  apply registerTool_Throw in Htool.
  split_and!; [done | | by rewrite Htool].
  rewrite Hreg', Hreg. unfold ToolRegistry.registerAll. by rewrite foldl_app.
Qed.

Lemma setupAllTools_stops_at_first_failure_witness :
  let w := (Database.initDatabase SampleFaults.odd_tool initialWorld).2 in
  let w' := (ToolService.setupAllTools SampleFaults.odd_tool w).2 in
  ToolService.setupAllTools SampleFaults.odd_tool w
  = (Throw "Failed to generate embedding", w')
  ∧ ∃ before tool after,
      demoTools SampleFaults.odd_tool = before ++ tool :: after
      ∧ toolRegistry w'
        = ToolRegistry.registerAll (before ++ [tool]) (toolRegistry w)
      ∧ Row.tool_id <$> stored w'
        = upserted (Row.tool_id <$> stored w) (Database.stored_id <$> before).
Proof.
  intros w w'.
  assert (Hsetup : ToolService.setupAllTools SampleFaults.odd_tool w
                   = (Throw "Failed to generate embedding", w'))
    by (vm_compute; reflexivity).
  split; [exact Hsetup|].
  apply (setupAllTools_stops_at_first_failure SampleFaults.odd_tool w
           (Pool.mk [] 1 1000 None) "Failed to generate embedding" w').
  - reflexivity.
  - exact Hsetup.
Defined.

(** ** The start-up of the entry point *)

Lemma initDatabase_Ok env w u w' :
  pool w = None →
  Database.initDatabase env w = (Ok u, w') →
  w' = with_pool (Some (server env)) w.
Proof.
  intros Hpool. unfold Database.initDatabase, pool_query. run.
  rewrite Hpool. cbv beta iota.
  destruct (connect env) as [[]|e]; [|discriminate]. cbv beta iota.
  cbn [pool with_pool].
  destruct (Pool.failure (server env)); [discriminate|]. cbv beta iota.
  cbn [pool with_pool].
  destruct (Pool.failure (server env)); [discriminate|].
  by intros [= <-].
Qed.

Lemma startup_Ok env u w :
  EntryPoint.startup env initialWorld = (Ok u, w) →
  toolRegistry w = ToolRegistry.registerAll (demoTools env) ToolRegistry.new
  ∧ pastTools w = []
  ∧ Row.tool_id <$> stored w
    = upserted (Row.tool_id <$> Pool.tool_embeddings (server env))
        (Database.stored_id <$> demoTools env).
Proof.
  destruct u. unfold EntryPoint.startup, mbind, M_bind.
  destruct (Embedding.initializeEmbeddingModel env initialWorld)
    as [[[]|e] w1] eqn:Hmodel; [|discriminate].
  apply initializeEmbeddingModel_frame in Hmodel.
  destruct (Database.initDatabase env w1) as [[[]|e] w2] eqn:Hdb; [|discriminate].
  apply initDatabase_Ok in Hdb; [|by rewrite Hmodel].
  destruct (ToolService.setupAllTools env w2) as [[[]|e] w3] eqn:Hsetup;
    [|discriminate].
  eapply setupAllTools_Ok in Hsetup as (Hreg & Hids & _); [|by rewrite Hdb].
  unfold modify. intros [= <-].
  cbn [toolRegistry pastTools with_pastTools]. unfold stored in *.
  cbn [pool with_pastTools]. rewrite Hreg, Hids, Hdb, Hmodel. done.
Qed.

(** X23. No hit is dropped without notice. With demo tools whose ids
    have at most 255 characters, so that the [tool_id] column holds them in
    full: after a start-up that succeeded against a table holding only
    rows of demo tools (an empty table, for one), and after any number of
    turns, every hit of a selection names a registered tool: [getMultiple]
    answers with one tool per hit, in the order of the hits. *)
Theorem no_hit_dropped_after_startup env u w texts r w2 text hits w3 :
  Forall (λ tool, (String.length (ToolDefinition.id tool) ≤ 255)%nat)
    (demoTools env) →
  EntryPoint.startup env initialWorld = (Ok u, w) →
  (∀ row, row ∈ Pool.tool_embeddings (server env) →
          Row.tool_id row ∈ ToolDefinition.id <$> demoTools env) →
  forOf texts (turn env) w = (r, w2) →
  selection env text w2 = (Ok hits, w3) →
  ToolDefinition.id
    <$> ToolRegistry.getMultiple (Hit.id <$> hits) (toolRegistry w3)
  = Hit.id <$> hits.
Proof.
  intros Hshort (Hreg & _ & Hids)%startup_Ok Hserver
    [Hpool Hreg2]%turns_frame Hsel.
  pose proof (hits_submseteq _ _ _ _ _ _ _ Hsel) as Hsub.
  apply findRelevantTools_pastTools in Hsel as (_ & Hreg3 & _).
  rewrite Hreg3, Hreg2, Hreg, getMultiple_ids.
  apply filter_all, Forall_forall. intros i Hi.
  apply (elem_of_submseteq _ _ _ Hi) in Hsub.
  unfold stored in Hsub, Hids. rewrite Hpool in Hsub. rewrite Hids in Hsub.
  apply elem_of_upserted in Hsub as [(row & -> & Hrow)%list_elem_of_fmap|Hdemo];
    [by apply Hserver|].
  apply list_elem_of_fmap in Hdemo as (tool & -> & Htool).
  rewrite Forall_forall in Hshort. unfold Database.stored_id.
  rewrite left_short by (by apply Hshort).
  apply list_elem_of_fmap. by exists tool.
Qed.

Lemma no_hit_dropped_after_startup_witness :
  let w2 := (forOf ["what's the weather in Boston"] (turn SampleEnv.env)
               SampleEnv.ready).2 in
  let hits :=
    match (selection SampleEnv.env "weather or email" w2).1 with
    | Ok hits => hits
    | Throw _ => []
    end in
  selection SampleEnv.env "weather or email" w2 = (Ok hits, w2)
  ∧ Hit.id <$> hits = ["get_weather"; "send_email"]
  ∧ ToolDefinition.id
      <$> ToolRegistry.getMultiple (Hit.id <$> hits) (toolRegistry w2)
    = Hit.id <$> hits.
Proof.
  intros w2 hits.
  assert (Hsel : selection SampleEnv.env "weather or email" w2 = (Ok hits, w2))
    by (vm_compute; reflexivity).
  split_and!; [exact Hsel | vm_compute; reflexivity |].
  apply (no_hit_dropped_after_startup SampleEnv.env () SampleEnv.ready
           ["what's the weather in Boston"] (Ok ()) w2 "weather or email" hits w2).
  - repeat constructor; vm_compute; lia.
  - vm_compute. reflexivity.
  - intros row Hrow. by apply elem_of_nil in Hrow.
  - vm_compute. reflexivity.
  - exact Hsel.
Defined.

Lemma demoTools_ids_NoDup : NoDup (Snapshot.id <$> Tools.demoTools).
Proof. apply (bool_decide_unpack _). vm_compute. exact I. Qed.

Lemma last_with_id_unique (tools : list ToolDefinition.t) (tool : ToolDefinition.t) :
  NoDup (ToolDefinition.id <$> tools) →
  tool ∈ tools →
  last_with_id (ToolDefinition.id tool) tools = Some tool.
Proof.
  intros Hnd Htool. unfold last_with_id.
  destruct (filter_key_unique ToolDefinition.id (ToolDefinition.id tool) tools Hnd)
    as [x Hx]; [apply list_elem_of_fmap; by exists tool|].
  assert (Hin : tool ∈ filter (λ t, ToolDefinition.id t = ToolDefinition.id tool)
                         tools) by (by apply list_elem_of_filter).
  rewrite Hx in Hin. apply list_elem_of_singleton in Hin as ->.
  by rewrite Hx.
Qed.

(** X24. The tools of tools.ts carry pairwise distinct ids, so none
    replaces another: with the ids, names, descriptions and keywords of
    tools.ts, a start-up that succeeds against an empty table leaves 26
    rows, one per tool and in the order of tools.ts, and the registry
    answers for each tool's id with that very tool. *)
Theorem demoTools_all_registered_and_stored env u w :
  Database.snapshot <$> demoTools env = Tools.demoTools →
  Pool.tool_embeddings (server env) = [] →
  EntryPoint.startup env initialWorld = (Ok u, w) →
  Row.tool_id <$> stored w = Snapshot.id <$> Tools.demoTools
  ∧ length (stored w) = 26%nat
  ∧ (∀ tool, tool ∈ demoTools env →
       ToolRegistry.get (ToolDefinition.id tool) (toolRegistry w) = Some tool).
Proof.
  intros Hsnap Hempty (Hreg & _ & Hstored)%startup_Ok.
  assert (Hids : ToolDefinition.id <$> demoTools env
                 = Snapshot.id <$> Tools.demoTools).
  { rewrite <-Hsnap, <-list_fmap_compose. done. }
  pose proof demoTools_ids_NoDup as Hnd. rewrite <-Hids in Hnd.
  assert (Hkeys : Database.stored_id <$> demoTools env
                  = Snapshot.id <$> Tools.demoTools).
  { transitivity ((λ s, Sql.left 255 (Snapshot.id s)) <$> Tools.demoTools);
      [|vm_compute; reflexivity].
    rewrite <-Hsnap, <-list_fmap_compose. done. }
  assert (Hrows : Row.tool_id <$> stored w = Snapshot.id <$> Tools.demoTools).
  { rewrite Hstored, Hempty, Hkeys. unfold upserted. cbn [fmap list_fmap app].
    rewrite first_occurrences_NoDup by apply demoTools_ids_NoDup.
    apply filter_all, Forall_forall. intros i _. apply not_elem_of_nil. }
  split_and!.
  - exact Hrows.
  - rewrite <-(length_fmap Row.tool_id), Hrows. reflexivity.
  - intros tool Htool. rewrite Hreg, registerAll_new_get.
    by apply last_with_id_unique.
Qed.

Lemma demoTools_all_registered_and_stored_witness :
  let w := (EntryPoint.startup SampleEnv.full initialWorld).2 in
  length (stored w) = 26%nat
  ∧ head (Row.tool_id <$> stored w) = Some "get_weather"
  ∧ last (Row.tool_id <$> stored w) = Some "generate_code".
Proof.
  intros w.
  destruct (demoTools_all_registered_and_stored SampleEnv.full () w)
    as (Hids & Hlength & _).
  - reflexivity.
  - reflexivity.
  - vm_compute. reflexivity.
  - split_and!; [exact Hlength | by rewrite Hids..].
Defined.

(** ** Lines of the prompt loop, further *)

Lemma trimStart_blank (s : string) : Js.blank s = true → Js.trimStart s = "".
Proof.
  induction s as [|c s IH]; [done|]. cbn [Js.blank Js.trimStart].
  intros [-> Hs]%andb_true_iff. by apply IH.
Qed.

Lemma trimStart_not_blank (s : string) :
  Js.blank s = false →
  ∃ c s', Js.trimStart s = String c s' ∧ Js.isWhiteSpace c = false.
Proof.
  induction s as [|c s IH]; [done|]. cbn [Js.blank Js.trimStart].
  destruct (Js.isWhiteSpace c) eqn:Hc; [exact IH|]. by exists c, s.
Qed.

Lemma trimStart_empty (s : string) : Js.trimStart s = "" → Js.blank s = true.
Proof.
  induction s as [|c s IH]; [done|]. cbn [Js.blank Js.trimStart].
  by destruct (Js.isWhiteSpace c).
Qed.

Lemma blank_rev_app (s acc : string) :
  Js.blank (String.rev_app s acc) = (Js.blank s && Js.blank acc)%bool.
Proof.
  revert acc. induction s as [|c s IH]; intros acc; [done|].
  cbn [String.rev_app]. rewrite IH. cbn [Js.blank].
  by destruct (Js.isWhiteSpace c), (Js.blank s).
Qed.

Lemma rev_app_empty (s acc : string) : String.rev_app s acc = "" → s = "".
Proof.
  revert acc. induction s as [|c s IH]; intros acc; [done|].
  cbn [String.rev_app]. intros Hrev. pose proof (IH _ Hrev) as ->.
  discriminate Hrev.
Qed.

(** [text.trim()] is truthy unless [text] is white space only. *)
Lemma truthy_trim (s : string) : Js.truthy (Js.trim s) = negb (Js.blank s).
Proof.
  unfold Js.trim, Js.trimEnd. destruct (Js.blank s) eqn:Hs.
  - rewrite (trimStart_blank s) by done. reflexivity.
  - destruct (trimStart_not_blank s Hs) as (c & s' & -> & Hc).
    cbn [negb]. unfold String.rev.
    destruct (String.rev_app (Js.trimStart _) "") eqn:Hrev; [|done].
    apply rev_app_empty, trimStart_empty in Hrev.
    rewrite blank_rev_app in Hrev. cbn [Js.blank] in Hrev.
    rewrite Hc in Hrev. cbn [andb] in Hrev. by destruct (Js.blank _).
Qed.

Lemma trim_blank (s : string) : Js.blank s = true → Js.trim s = "".
Proof.
  intros Hs. pose proof (truthy_trim s) as Ht. rewrite Hs in Ht.
  by destruct (Js.trim s).
Qed.

(** X25. Blank lines are invisible to the entry point: its loop, and
    [main] as a whole, behave on an input as on the same input without the
    lines made of white space only (the empty line included). Lines are
    strings of code units below 256; the white space among these is TAB,
    LF, VT, FF, CR, the space and the no-break space. *)
Theorem promptLoop_skips_blank_lines env lines w :
  EntryPoint.promptLoop env lines w
  = EntryPoint.promptLoop env (filter (λ text, Js.blank text = false) lines) w
  ∧ EntryPoint.main env lines
    = EntryPoint.main env (filter (λ text, Js.blank text = false) lines).
Proof.
  assert (Hloop : ∀ w, EntryPoint.promptLoop env lines w
    = EntryPoint.promptLoop env (filter (λ text, Js.blank text = false) lines) w).
  { clear w. induction lines as [|text lines IH]; intros w; [done|].
    rewrite filter_cons. destruct (decide (Js.blank text = false)) as [Hb|Hb].
    - cbn [EntryPoint.promptLoop].
      destruct (String.eqb _ "exit"); [done|].
      destruct (Js.truthy _); [|apply IH].
      destruct (Agent.handlePrompt _ _ _ _ _ w) as [[u|e] w']; [|done].
      by rewrite IH.
    - apply not_false_is_true in Hb. cbn [EntryPoint.promptLoop].
      rewrite (trim_blank _ Hb). cbn [Js.toLowerCase String.eqb Js.truthy].
      apply IH. }
  split; [apply Hloop|].
  unfold EntryPoint.main. destruct (missing _); [done|].
  destruct (EntryPoint.startup env initialWorld) as [[u|e] w0]; [|done].
  by rewrite Hloop.
Qed.

(** What the loop of the entry point has read, by the way it ended. *)
Lemma promptLoop_reads env lines w r ts w' :
  EntryPoint.promptLoop env lines w = (r, ts, w') →
  match r with
  | Ok Pending =>
      ts = filter (λ text, is_query text = true) lines
      ∧ Forall (λ text, exits text = false) lines
  | Ok Break =>
      ∃ before text after,
        lines = before ++ text :: after
        ∧ exits text = true
        ∧ Forall (λ text, exits text = false) before
        ∧ ts = filter (λ text, is_query text = true) before
  | Throw e =>
      ∃ before text after,
        lines = before ++ text :: after
        ∧ is_query text = true
        ∧ Forall (λ text, exits text = false) before
        ∧ ts = filter (λ text, is_query text = true) before ++ [text]
  end.
Proof.
  revert w ts. induction lines as [|text lines IH]; intros w ts.
  - intros [= <- <- <-]. done.
  - cbn [EntryPoint.promptLoop].
    change (String.eqb (Js.toLowerCase (Js.trim text)) "exit") with (exits text).
    assert (Hq : is_query text
                 = (negb (exits text) && Js.truthy (Js.trim text))%bool) by done.
    destruct (exits text) eqn:Hexit.
    { intros [= <- <- <-]. by exists [], text, lines. }
    cbn [negb andb] in Hq.
    destruct (Js.truthy (Js.trim text)) eqn:Htruthy.
    + destruct (Agent.handlePrompt _ _ _ _ _ w) as [[u|e] w1].
      * destruct (EntryPoint.promptLoop env lines w1) as [[r1 ts1] w2] eqn:Hrest.
        intros [= <- <- <-]. apply IH in Hrest.
        destruct r1 as [[]|e].
        -- destruct Hrest as (before & t & after & -> & ? & ? & ->).
           exists (text :: before), t, after.
           rewrite filter_cons_True by done.
           split_and!; [done..|by constructor|done].
        -- destruct Hrest as [-> ?]. rewrite filter_cons_True by done.
           split; [done|]. by constructor.
        -- destruct Hrest as (before & t & after & -> & ? & ? & ->).
           exists (text :: before), t, after.
           rewrite filter_cons_True by done.
           split_and!; [done..|by constructor|done].
      * intros [= <- <- <-]. exists [], text, lines. by split_and!.
    + intros Hrest%IH. destruct r as [[]|e].
      * destruct Hrest as (before & t & after & -> & ? & ? & ->).
        exists (text :: before), t, after.
        rewrite filter_cons_False by (rewrite Hq; done).
        split_and!; [done..|by constructor|done].
      * destruct Hrest as [-> ?].
        rewrite filter_cons_False by (rewrite Hq; done).
        split; [done|]. by constructor.
      * destruct Hrest as (before & t & after & -> & ? & ? & ->).
        exists (text :: before), t, after.
        rewrite filter_cons_False by (rewrite Hq; done).
        split_and!; [done..|by constructor|done].
Qed.

(** X26. The way a run of the entry point ends tells what it has read.
    A run left waiting for input met no exit line and has handled every
    query line, in order. A run ended with status 0 met an exit line, has
    handled the query lines before the first one, and has read nothing
    after it. A run ended with status 1 either failed before the first
    prompt or stopped at the query line whose turn failed, having handled
    the query lines before it. A query line is one that is neither blank,
    by the white space of ECMAScript, nor an exit line; lines are strings
    of code units below 256, among which the no-break space is white
    space. *)
Theorem main_ending_tells_what_was_read env lines :
  let run := EntryPoint.main env lines in
  (ending run = AwaitingInput →
   turns run = filter (λ text, is_query text = true) lines
   ∧ Forall (λ text, exits text = false) lines)
  ∧ (ending run = Exit 0 →
     ∃ before text after,
       lines = before ++ text :: after
       ∧ exits text = true
       ∧ Forall (λ text, exits text = false) before
       ∧ turns run = filter (λ text, is_query text = true) before)
  ∧ (ending run = Exit 1 →
     turns run = []
     ∨ ∃ before text after,
         lines = before ++ text :: after
         ∧ is_query text = true
         ∧ Forall (λ text, exits text = false) before
         ∧ turns run = filter (λ text, is_query text = true) before ++ [text]).
Proof.
  unfold EntryPoint.main. destruct (missing (DATABASE_URL env)); [done|].
  destruct (EntryPoint.startup env initialWorld) as [[u|e] w0].
  2: { cbn [ending turns]. split_and!; [done..|]. by left. }
  destruct (EntryPoint.promptLoop env lines w0) as [[r ts] w'] eqn:Hloop.
  apply promptLoop_reads in Hloop.
  destruct r as [[]|e]; cbn [ending turns]; split_and!; try done.
  intros _. by right.
Qed.

Lemma main_ending_tells_what_was_read_witness :
  (turns (EntryPoint.main SampleEnv.env
            ["what's the weather in Boston"; ""; Sample.nbsp;
             "email john about the meeting"])
   = ["what's the weather in Boston"; "email john about the meeting"])
  ∧ (∃ before text after,
       ["what's the weather in Boston"; " Exit "; "email john about the meeting"]
       = before ++ text :: after
       ∧ exits text = true
       ∧ Forall (λ text, exits text = false) before
       ∧ turns (EntryPoint.main SampleEnv.env
                  ["what's the weather in Boston"; " Exit ";
                   "email john about the meeting"])
         = filter (λ text, is_query text = true) before).
Proof.
  split.
  - destruct (main_ending_tells_what_was_read SampleEnv.env
                ["what's the weather in Boston"; ""; Sample.nbsp;
                 "email john about the meeting"]) as (Hpending & _ & _).
    destruct Hpending as [Hturns _]; [vm_compute; reflexivity|].
    rewrite Hturns. vm_compute. reflexivity.
  - destruct (main_ending_tells_what_was_read SampleEnv.env
                ["what's the weather in Boston"; " Exit ";
                 "email john about the meeting"]) as (_ & Hexit & _).
    apply Hexit. vm_compute. reflexivity.
Defined.

(** ** The two entry points *)






(** ** The configuration *)

Lemma validateEnvironment_cases (process_env : gmap string string) :
  ConfigTs.validateEnvironment process_env
  = if missing (process_env !! "DATABASE_URL")
    then Throw ("Missing required environment variables: DATABASE_URL. "
                ++ "Please check your .env file or environment configuration.")
    else Ok ().
Proof.
  unfold ConfigTs.validateEnvironment. cbv zeta.
  rewrite filter_cons, filter_nil.
  by destruct (missing (process_env !! "DATABASE_URL")).
Qed.

(** X28. [createConfig] refuses exactly when [DATABASE_URL] is unset or
    empty, whatever the other variables hold; when it answers, the
    configuration carries the value of [DATABASE_URL] as it is, and that
    value is not empty. *)
Theorem createConfig_requires_DATABASE_URL
    (parseFloat : string → option Q) (process_env : gmap string string) :
  (missing (process_env !! "DATABASE_URL") = true →
   ConfigTs.createConfig parseFloat process_env
   = Throw ("Missing required environment variables: DATABASE_URL. "
            ++ "Please check your .env file or environment configuration."))
  ∧ (missing (process_env !! "DATABASE_URL") = false →
     ∃ cfg,
       ConfigTs.createConfig parseFloat process_env = Ok cfg
       ∧ process_env !! "DATABASE_URL" = Some (ConfigTs.database_url cfg)
       ∧ ConfigTs.database_url cfg ≠ "").
Proof.
  unfold ConfigTs.createConfig. rewrite validateEnvironment_cases.
  split; intros Hurl; rewrite Hurl; [done|].
  eexists. split; [done|]. cbn [ConfigTs.database_url].
  destruct (process_env !! "DATABASE_URL") as [[|c url]|]; done.
Qed.

Lemma createConfig_requires_DATABASE_URL_witness :
  ConfigTs.createConfig (λ _, None) {["DATABASE_URL" := ""]}
  = Throw ("Missing required environment variables: DATABASE_URL. "
           ++ "Please check your .env file or environment configuration.")
  ∧ ∃ cfg,
      ConfigTs.createConfig (λ _, None)
        {["DATABASE_URL" := "postgresql://localhost/tools"]} = Ok cfg
      ∧ ({["DATABASE_URL" := "postgresql://localhost/tools"]} : gmap string string)
          !! "DATABASE_URL" = Some (ConfigTs.database_url cfg)
      ∧ ConfigTs.database_url cfg ≠ "".
Proof.
  split.
  - apply createConfig_requires_DATABASE_URL. vm_compute. reflexivity.
  - apply createConfig_requires_DATABASE_URL. vm_compute. reflexivity.
Defined.

Lemma or_empty_is_unset (process_env : gmap string string) (k x fallback : string) :
  ConfigTs.or (<[k := ""]> process_env !! x) fallback
  = ConfigTs.or (delete k process_env !! x) fallback.
Proof.
  destruct (decide (k = x)) as [->|Hne].
  - by rewrite lookup_insert_eq, lookup_delete_eq.
  - by rewrite lookup_insert_ne, lookup_delete_ne.
Qed.

Lemma missing_empty_is_unset (process_env : gmap string string) (k x : string) :
  missing (<[k := ""]> process_env !! x) = missing (delete k process_env !! x).
Proof.
  destruct (decide (k = x)) as [->|Hne].
  - by rewrite lookup_insert_eq, lookup_delete_eq.
  - by rewrite lookup_insert_ne, lookup_delete_ne.
Qed.

(** X29. For [createConfig] an empty variable is an unset one: setting
    any variable to the empty string gives the result of removing it, be
    it the refusal for [DATABASE_URL] or the default of an optional
    setting. *)
Theorem createConfig_empty_is_unset
    (parseFloat : string → option Q) (process_env : gmap string string)
    (variable : string) :
  ConfigTs.createConfig parseFloat (<[variable := ""]> process_env)
  = ConfigTs.createConfig parseFloat (delete variable process_env).
Proof.
  unfold ConfigTs.createConfig. rewrite !validateEnvironment_cases.
  rewrite missing_empty_is_unset.
  destruct (missing (delete variable process_env !! "DATABASE_URL")) eqn:Hurl;
    [done|].
  rewrite !or_empty_is_unset. do 2 f_equal.
  destruct (decide (variable = "DATABASE_URL")) as [->|Hne].
  - by rewrite lookup_delete_eq in Hurl.
  - by rewrite lookup_insert_ne, lookup_delete_ne.
Qed.

(** X30. With [DATABASE_URL] set and every other variable unset or empty,
    [createConfig] answers with the defaults, the numbers read from
    their default texts: 20 connections, 30000 and 2000 milliseconds, 384
    dimensions, length 512, and for the search the three tools and the
    threshold text [0.6] that main.ts has as constants. *)
Theorem createConfig_defaults
    (parseFloat : string → option Q) (process_env : gmap string string)
    (url : string) :
  process_env !! "DATABASE_URL" = Some url →
  url ≠ "" →
  (∀ variable, variable ≠ "DATABASE_URL" →
               missing (process_env !! variable) = true) →
  ConfigTs.createConfig parseFloat process_env
  = Ok (ConfigTs.mkAppConfig url (Some 20) (Some 30000) (Some 2000)
          "BGESmallENV15" (Some 384) (Some 512)
          "google/gemini-2.0-flash" "Dynamic Agent" ConfigTs.defaultInstructions
          (Some 3) (parseFloat "0.6")).
Proof.
  intros Hurl Hne Hunset.
  assert (Hor : ∀ variable fallback, variable ≠ "DATABASE_URL" →
            ConfigTs.or (process_env !! variable) fallback = fallback).
  { intros variable fallback Hv. specialize (Hunset variable Hv).
    by destruct (process_env !! variable) as [[|??]|]. }
  unfold ConfigTs.createConfig. rewrite validateEnvironment_cases, Hurl.
  destruct url as [|c url]; [done|]. cbn [missing Js.truthy negb default].
  rewrite !Hor by done. reflexivity.
Qed.

Lemma createConfig_defaults_witness :
  ConfigTs.createConfig (λ _, Some (6 # 10)%Q)
    {["DATABASE_URL" := "postgresql://localhost/tools"]}
  = Ok (ConfigTs.mkAppConfig "postgresql://localhost/tools"
          (Some 20) (Some 30000) (Some 2000)
          "BGESmallENV15" (Some 384) (Some 512)
          "google/gemini-2.0-flash" "Dynamic Agent" ConfigTs.defaultInstructions
          (Some 3) (Some (6 # 10)%Q)).
Proof.
  apply (createConfig_defaults (λ _, Some (6 # 10)%Q)).
  - reflexivity.
  - discriminate.
  - intros variable Hne. by rewrite lookup_singleton_ne.
Defined.
